(** * Pipe: the SQLite-backed resource catalog, execution ledger and watch bus

    A shallow embedding of [pkg/store/sqlite.go] (with the declarations of
    [pkg/store/store.go] and the execution model of package [models]) and the
    properties of the store that the specification states.

    Conventions of the embedding.
    - The database is modelled by the contents of its three tables after
      [Migrate]; a table with a primary key is a finite map from that key.
    - [time.Now().UTC()] and [uuid.New().String()] are inputs of the operation
      that calls them ([now], [fresh]).
    - [encoding/json] is a parameter: a pair [marshal]/[unmarshal] per Go type,
      both fallible.  Properties that read a record back assume the pair is
      lossless on the record that was written.
    - A statement sent to a closed [*sql.DB] fails; an open one executes the
      statement by its SQL meaning.  Transient driver failures are not modelled.
    - A Go [[]byte] is [option (list byte)]: [None] is the nil slice.  The
      driver binds nil to NULL and a non-nil slice to a BLOB, and scans them
      back the same way.
    - A buffered channel is its capacity and the list of events it holds. *)

From Stdlib Require Import ZArith.
From Stdlib.Strings Require Import Byte.
From stdpp Require Import gmap strings list sorting.

Local Open Scope Z_scope.

(** ** Package models *)

Abbreviation Time := Z.
Abbreviation ResourceKind := string.
Abbreviation GoBytes := (option (list byte)).

(** Modelled from the spec: the declaration of [models.ResourceStatus] is not
    among the sources; the fields are those the spec lists and [Put] uses. *)
Record ResourceStatus := {
  State : string;
  Health : string;
  LastUpdated : Time;
}.

(** Modelled from the spec: the declaration of the metadata struct of
    [models.GenericResource] is not among the sources. *)
Record ResourceMetadata := {
  Namespace : string;
  Name : string;
  UID : string;
  CreatedAt : Time;
  UpdatedAt : Time;
}.

(** Modelled from the spec: the declaration of [models.GenericResource] is not
    among the sources.  [Any] stands for Go's [interface{}]; it is the type
    taken for the opaque [Spec] payload. *)
Record GenericResource (Any : Type) := {
  Kind : ResourceKind;
  Metadata : ResourceMetadata;
  Spec : Any;
  Status : ResourceStatus;
}.
Arguments Kind {Any} _.
Arguments Metadata {Any} _.
Arguments Spec {Any} _.
Arguments Status {Any} _.

Record ExecutionLog := {
  Timestamp : Time;
  Level : string;
  Message : string;
  Step : Z;
}.

Abbreviation ExecutionState := string.
Definition ExecPending : ExecutionState := "Pending"%string.
Definition ExecRunning : ExecutionState := "Running"%string.
Definition ExecPaused : ExecutionState := "Paused"%string.
Definition ExecFailed : ExecutionState := "Failed"%string.
Definition ExecCompleted : ExecutionState := "Completed"%string.
Definition ExecRetrying : ExecutionState := "Retrying"%string.

Module Exec.
Record ExecutionRecord (Any : Type) := {
  ID : string;
  AgentName : string;
  PipelineName : string;
  Namespace : string;
  State : ExecutionState;
  Input : gmap string string;
  Output : gmap string Any;
  CurrentStep : Z;
  TotalSteps : Z;
  Checkpoint : GoBytes;
  RetryCount : Z;
  MaxRetries : Z;
  Priority : Z;
  Error : string;
  Logs : list ExecutionLog;
  TokensUsed : Z;
  LatencyMs : Z;
  CreatedAt : Time;
  UpdatedAt : Time;
  StartedAt : option Time;
  CompletedAt : option Time;
}.
Arguments ID {Any} _.
Arguments AgentName {Any} _.
Arguments PipelineName {Any} _.
Arguments Namespace {Any} _.
Arguments State {Any} _.
Arguments Input {Any} _.
Arguments Output {Any} _.
Arguments CurrentStep {Any} _.
Arguments TotalSteps {Any} _.
Arguments Checkpoint {Any} _.
Arguments RetryCount {Any} _.
Arguments MaxRetries {Any} _.
Arguments Priority {Any} _.
Arguments Error {Any} _.
Arguments Logs {Any} _.
Arguments TokensUsed {Any} _.
Arguments LatencyMs {Any} _.
Arguments CreatedAt {Any} _.
Arguments UpdatedAt {Any} _.
Arguments StartedAt {Any} _.
Arguments CompletedAt {Any} _.

(** Field assignments [exec.ID = ...], [exec.CreatedAt = ...],
    [exec.UpdatedAt = ...]. *)
Definition set_ID {Any} (v : string) (e : ExecutionRecord Any) :=
  Build_ExecutionRecord Any v (AgentName e) (PipelineName e) (Namespace e)
    (State e) (Input e) (Output e) (CurrentStep e) (TotalSteps e)
    (Checkpoint e) (RetryCount e) (MaxRetries e) (Priority e) (Error e)
    (Logs e) (TokensUsed e) (LatencyMs e) (CreatedAt e) (UpdatedAt e)
    (StartedAt e) (CompletedAt e).
Definition set_CreatedAt {Any} (v : Time) (e : ExecutionRecord Any) :=
  Build_ExecutionRecord Any (ID e) (AgentName e) (PipelineName e)
    (Namespace e) (State e) (Input e) (Output e) (CurrentStep e)
    (TotalSteps e) (Checkpoint e) (RetryCount e) (MaxRetries e) (Priority e)
    (Error e) (Logs e) (TokensUsed e) (LatencyMs e) v (UpdatedAt e)
    (StartedAt e) (CompletedAt e).
Definition set_UpdatedAt {Any} (v : Time) (e : ExecutionRecord Any) :=
  Build_ExecutionRecord Any (ID e) (AgentName e) (PipelineName e)
    (Namespace e) (State e) (Input e) (Output e) (CurrentStep e)
    (TotalSteps e) (Checkpoint e) (RetryCount e) (MaxRetries e) (Priority e)
    (Error e) (Logs e) (TokensUsed e) (LatencyMs e) (CreatedAt e) v
    (StartedAt e) (CompletedAt e).
End Exec.
Abbreviation ExecutionRecord := Exec.ExecutionRecord.

(** Field assignments on a resource. *)
Definition set_UID (v : string) (m : ResourceMetadata) : ResourceMetadata :=
  {| Namespace := Namespace m; Name := Name m; UID := v;
     CreatedAt := CreatedAt m; UpdatedAt := UpdatedAt m |}.
Definition set_CreatedAt (v : Time) (m : ResourceMetadata) : ResourceMetadata :=
  {| Namespace := Namespace m; Name := Name m; UID := UID m;
     CreatedAt := v; UpdatedAt := UpdatedAt m |}.
Definition set_UpdatedAt (v : Time) (m : ResourceMetadata) : ResourceMetadata :=
  {| Namespace := Namespace m; Name := Name m; UID := UID m;
     CreatedAt := CreatedAt m; UpdatedAt := v |}.
Definition set_LastUpdated (v : Time) (st : ResourceStatus) : ResourceStatus :=
  {| State := State st; Health := Health st; LastUpdated := v |}.
Definition set_Metadata {Any} (m : ResourceMetadata) (r : GenericResource Any) :=
  {| Kind := Kind r; Metadata := m; Spec := Spec r; Status := Status r |}.
Definition set_Status {Any} (st : ResourceStatus) (r : GenericResource Any) :=
  {| Kind := Kind r; Metadata := Metadata r; Spec := Spec r; Status := st |}.

(** ** Package store: declarations of store.go *)

Inductive EventType := EventCreated | EventUpdated | EventDeleted.

(** The Go event holds a pointer to the resource; [Resource] is the resource
    as it is when the event is sent. *)
Record ResourceEvent (Any : Type) := {
  Type_ : EventType;
  Resource : GenericResource Any;
}.
Arguments Type_ {Any} _.
Arguments Resource {Any} _.

(** The errors the store returns, by the class the spec gives them. *)
Inductive Error := NotFound | EncodingError | StorageFailure.

Inductive result (A : Type) := Ok (a : A) | Err (e : Error).
Arguments Ok {A} a.
Arguments Err {A} e.

(** [encoding/json] for one Go type: the serialized text is [json A]. *)
Class JSON (A : Type) := {
  json : Type;
  marshal : A → option json;
  unmarshal : json → option A;
}.

(** ** The store *)

(** A [chan ResourceEvent] made with a buffer: capacity and queued events,
    oldest first. *)
Record Chan (Any : Type) := {
  cap : nat;
  buf : list (ResourceEvent Any);
}.
Arguments cap {Any} _.
Arguments buf {Any} _.

Definition make_chan {Any} (n : nat) : Chan Any := {| cap := n; buf := [] |}.

(** [select { case ch <- event: default: }] *)
Definition try_send {Any} (ev : ResourceEvent Any) (ch : Chan Any) : Chan Any :=
  if decide (length (buf ch) < cap ch)%nat
  then {| cap := cap ch; buf := buf ch ++ [ev] |}
  else ch.

(** [<-ch] when an event is queued. *)
Definition try_recv {Any} (ch : Chan Any) : option (ResourceEvent Any * Chan Any) :=
  match buf ch with
  | [] => None
  | ev :: rest => Some (ev, {| cap := cap ch; buf := rest |})
  end.

(** The primary key of table [resources]: kind, namespace, name. *)
Abbreviation Key := (string * string * string)%type.

Section Store.
Context {Any : Type}.
Context `{ResJSON : !JSON (GenericResource Any)}.
Context `{ExecJSON : !JSON (ExecutionRecord Any)}.

Local Abbreviation Res := (GenericResource Any).
Local Abbreviation Execution := (ExecutionRecord Any).
Local Abbreviation Event := (ResourceEvent Any).

(** A row of table [resources]; the primary key (kind, namespace, name) is
    the key of the map. *)
Record ResourceRow := {
  uid : string;
  data : json (A := Res);
  created_at : Time;
  updated_at : Time;
}.

(** A row of table [executions]; the primary key [id] is the key of the map.
    [checkpoint] is a nullable BLOB. *)
Record ExecutionRow := {
  e_namespace : string;
  e_agent_name : string;
  e_pipeline_name : string;
  e_state : string;
  e_data : json (A := Execution);
  e_checkpoint : option (list byte);
  e_created_at : Time;
  e_updated_at : Time;
}.

(** A row of table [execution_logs], without its autoincrement id: the list
    is in insertion order. *)
Record LogRow := {
  l_execution_id : string;
  l_entry : ExecutionLog;
}.

Record SQLiteStore := {
  db_open : bool;
  resources : gmap Key ResourceRow;
  executions : gmap string ExecutionRow;
  execution_logs : list LogRow;
  watchers : gmap ResourceKind (list (Chan Any));
}.

Definition with_resources (t : gmap Key ResourceRow) (s : SQLiteStore) :=
  {| db_open := db_open s; resources := t; executions := executions s;
     execution_logs := execution_logs s; watchers := watchers s |}.
Definition with_executions (t : gmap string ExecutionRow) (s : SQLiteStore) :=
  {| db_open := db_open s; resources := resources s; executions := t;
     execution_logs := execution_logs s; watchers := watchers s |}.
Definition with_logs (t : list LogRow) (s : SQLiteStore) :=
  {| db_open := db_open s; resources := resources s;
     executions := executions s; execution_logs := t;
     watchers := watchers s |}.
Definition with_watchers (w : gmap ResourceKind (list (Chan Any)))
    (s : SQLiteStore) :=
  {| db_open := db_open s; resources := resources s;
     executions := executions s; execution_logs := execution_logs s;
     watchers := w |}.

(** [NewSQLiteStore] followed by [Migrate]: an open database with empty
    tables and no watcher. *)
Definition NewSQLiteStore : SQLiteStore :=
  {| db_open := true; resources := ∅; executions := ∅;
     execution_logs := []; watchers := ∅ |}.

Definition Close (s : SQLiteStore) : SQLiteStore :=
  {| db_open := false; resources := resources s; executions := executions s;
     execution_logs := execution_logs s; watchers := watchers s |}.

Definition key_of (r : Res) : Key :=
  (Kind r, Namespace (Metadata r), Name (Metadata r)).

(** *** Watch support *)

Definition Watch (kind : ResourceKind) (s : SQLiteStore) : SQLiteStore * nat :=
  let chans := default [] (watchers s !! kind) in
  (with_watchers (<[kind := chans ++ [make_chan 100%nat]]> (watchers s)) s,
   length chans).

Definition emit (kind : ResourceKind) (event : Event) (s : SQLiteStore)
    : SQLiteStore :=
  with_watchers (alter (fmap (try_send event)) kind (watchers s)) s.

(** The subscriber side: the channel [Watch] returned as the [i]-th of its
    kind, and a receive on it. *)
Definition chan_of (kind : ResourceKind) (i : nat) (s : SQLiteStore)
    : option (Chan Any) :=
  watchers s !! kind ≫= λ chans, chans !! i.

Definition receive (kind : ResourceKind) (i : nat) (s : SQLiteStore)
    : SQLiteStore * option Event :=
  match chan_of kind i s ≫= try_recv with
  | Some (ev, ch) =>
      (with_watchers (alter (λ chans, <[i := ch]> chans) kind (watchers s)) s,
       Some ev)
  | None => (s, None)
  end.

(** *** Resource catalog *)

(** The in-place updates [Put] makes to its argument before it serializes
    it. *)
Definition stamp (now : Time) (fresh : string) (r : Res) : Res :=
  let m := Metadata r in
  let m := if decide (UID m = EmptyString)
           then set_CreatedAt now (set_UID fresh m) else m in
  let m := set_UpdatedAt now m in
  let st := Status r in
  let st := if decide (State st = EmptyString)
            then {| State := "Registered"%string; Health := "Unknown"%string;
                    LastUpdated := LastUpdated st |}
            else st in
  let st := set_LastUpdated now st in
  set_Status st (set_Metadata m r).

(** [INSERT ... ON CONFLICT(kind, namespace, name) DO UPDATE SET
    data = excluded.data, updated_at = excluded.updated_at] *)
Definition upsert (k : Key) (u : string) (d : json (A := Res))
    (now : Time) (t : gmap Key ResourceRow) : gmap Key ResourceRow :=
  match t !! k with
  | Some row =>
      <[k := {| uid := uid row; data := d; created_at := created_at row;
                updated_at := now |}]> t
  | None =>
      <[k := {| uid := u; data := d; created_at := now;
                updated_at := now |}]> t
  end.

(** [Put] returns the store, the caller's resource as [Put] leaves it, and
    the error. *)
Definition Put (now : Time) (fresh : string) (s : SQLiteStore)
    (resource : Res) : SQLiteStore * Res * option Error :=
  let isNew := bool_decide (UID (Metadata resource) = EmptyString) in
  let resource := stamp now fresh resource in
  match marshal resource with
  | None => (s, resource, Some EncodingError)
  | Some d =>
      if db_open s then
        let s := with_resources
                   (upsert (key_of resource) (UID (Metadata resource)) d now
                      (resources s)) s in
        let evtType := if isNew then EventCreated else EventUpdated in
        (emit (Kind resource)
           {| Type_ := evtType; Resource := resource |} s,
         resource, None)
      else (s, resource, Some StorageFailure)
  end.

Definition Get (kind : ResourceKind) (namespace name : string)
    (s : SQLiteStore) : result Res :=
  if db_open s then
    match resources s !! (kind, namespace, name) with
    | None => Err NotFound
    | Some row =>
        match unmarshal (data row) with
        | None => Err EncodingError
        | Some res => Ok res
        end
    end
  else Err StorageFailure.

Definition getUnlocked (kind : ResourceKind) (namespace name : string)
    (s : SQLiteStore) : result Res :=
  if db_open s then
    match resources s !! (kind, namespace, name) with
    | None => Err NotFound
    | Some row =>
        match unmarshal (data row) with
        | None => Err EncodingError
        | Some res => Ok res
        end
    end
  else Err StorageFailure.

Definition Delete (kind : ResourceKind) (namespace name : string)
    (s : SQLiteStore) : SQLiteStore * option Error :=
  match getUnlocked kind namespace name s with
  | Err e => (s, Some e)
  | Ok res =>
      if db_open s then
        let s := with_resources
                   (delete (kind, namespace, name) (resources s)) s in
        (emit kind {| Type_ := EventDeleted; Resource := res |} s, None)
      else (s, Some StorageFailure)
  end.

Definition UpdateStatus (now1 now2 : Time) (fresh : string)
    (kind : ResourceKind) (namespace name : string) (status : ResourceStatus)
    (s : SQLiteStore) : SQLiteStore * option Error :=
  match Get kind namespace name s with
  | Err e => (s, Some e)
  | Ok res =>
      let res := set_Status (set_LastUpdated now1 status) res in
      let '(s, _, err) := Put now2 fresh s res in
      (s, err)
  end.

(** The rows the query of [List] yields, with their keys: the storage order
    is that of the map. *)
Definition select_resources (kind : ResourceKind) (namespace : string)
    (t : gmap Key ResourceRow) : list (Key * ResourceRow) :=
  let rows := filter (λ p, p.1.1.1 = kind) (map_to_list t) in
  if decide (namespace ≠ EmptyString)
  then filter (λ p, p.1.1.2 = namespace) rows
  else rows.

Definition List (kind : ResourceKind) (namespace : string) (s : SQLiteStore)
    : result (list Res) :=
  if db_open s then
    match mapM (λ p, unmarshal (data p.2))
            (select_resources kind namespace (resources s)) with
    | None => Err EncodingError
    | Some results => Ok results
    end
  else Err StorageFailure.

(** *** Execution ledger *)

(** [INSERT INTO executions (...) VALUES (...)]: fails on a primary key that
    is already present; the checkpoint column is left NULL. *)
Definition insert_execution (id : string) (row : ExecutionRow)
    (t : gmap string ExecutionRow) : option (gmap string ExecutionRow) :=
  match t !! id with
  | Some _ => None
  | None => Some (<[id := row]> t)
  end.

Definition CreateExecution (now : Time) (fresh : string) (s : SQLiteStore)
    (exec : Execution) : SQLiteStore * Execution * option Error :=
  let exec := if decide (Exec.ID exec = EmptyString)
              then Exec.set_ID fresh exec else exec in
  let exec := Exec.set_UpdatedAt now (Exec.set_CreatedAt now exec) in
  match marshal exec with
  | None => (s, exec, Some EncodingError)
  | Some d =>
      if db_open s then
        let row := {| e_namespace := Exec.Namespace exec;
                      e_agent_name := Exec.AgentName exec;
                      e_pipeline_name := Exec.PipelineName exec;
                      e_state := Exec.State exec;
                      e_data := d;
                      e_checkpoint := None;
                      e_created_at := now;
                      e_updated_at := now |} in
        match insert_execution (Exec.ID exec) row (executions s) with
        | Some t => (with_executions t s, exec, None)
        | None => (s, exec, Some StorageFailure)
        end
      else (s, exec, Some StorageFailure)
  end.

Definition GetExecution (id : string) (s : SQLiteStore) : result Execution :=
  if db_open s then
    match executions s !! id with
    | None => Err NotFound
    | Some row =>
        match unmarshal (e_data row) with
        | None => Err EncodingError
        | Some exec => Ok exec
        end
    end
  else Err StorageFailure.

(** [UPDATE executions SET state = ?, data = ?, updated_at = ? WHERE id = ?] *)
Definition update_execution (id : string) (st : string)
    (d : json (A := Execution)) (now : Time)
    (t : gmap string ExecutionRow) : gmap string ExecutionRow :=
  alter (λ row, {| e_namespace := e_namespace row;
                   e_agent_name := e_agent_name row;
                   e_pipeline_name := e_pipeline_name row;
                   e_state := st;
                   e_data := d;
                   e_checkpoint := e_checkpoint row;
                   e_created_at := e_created_at row;
                   e_updated_at := now |}) id t.

Definition UpdateExecution (now : Time) (s : SQLiteStore) (exec : Execution)
    : SQLiteStore * Execution * option Error :=
  let exec := Exec.set_UpdatedAt now exec in
  match marshal exec with
  | None => (s, exec, Some EncodingError)
  | Some d =>
      if db_open s then
        (with_executions
           (update_execution (Exec.ID exec) (Exec.State exec) d
              (Exec.UpdatedAt exec) (executions s)) s,
         exec, None)
      else (s, exec, Some StorageFailure)
  end.

(** [ORDER BY created_at DESC]: [a] may come before [b]. *)
Definition created_desc (a b : ExecutionRow) : Prop :=
  e_created_at b ≤ e_created_at a.

#[global] Instance created_desc_dec a b : Decision (created_desc a b).
Proof. unfold created_desc. apply _. Defined.

(** The rows the query of [ListExecutions] yields, in order.  Rows of equal
    [created_at] come in the order of the sort used here; SQLite leaves it
    open. *)
Definition select_executions (namespace : string) (limit : Z)
    (t : gmap string ExecutionRow) : list ExecutionRow :=
  let rows := (map_to_list t).*2 in
  let rows := if decide (namespace ≠ EmptyString)
              then filter (λ row, e_namespace row = namespace) rows
              else rows in
  let rows := merge_sort created_desc rows in
  if decide (0 < limit) then take (Z.to_nat limit) rows else rows.

Definition ListExecutions (namespace : string) (limit : Z) (s : SQLiteStore)
    : result (list Execution) :=
  if db_open s then
    match mapM (λ row, unmarshal (e_data row))
            (select_executions namespace limit (executions s)) with
    | None => Err EncodingError
    | Some results => Ok results
    end
  else Err StorageFailure.

(** The table declares a foreign key on [execution_id], which SQLite does
    not enforce unless the connection asks for it; this one does not. *)
Definition AppendExecutionLog (id : string) (logEntry : ExecutionLog)
    (s : SQLiteStore) : SQLiteStore * option Error :=
  if db_open s then
    (with_logs (execution_logs s ++ [{| l_execution_id := id;
                                        l_entry := logEntry |}]) s, None)
  else (s, Some StorageFailure).

Definition timestamp_asc (a b : ExecutionLog) : Prop :=
  Timestamp a ≤ Timestamp b.

#[global] Instance timestamp_asc_dec a b : Decision (timestamp_asc a b).
Proof. unfold timestamp_asc. apply _. Defined.

Definition GetExecutionLogs (id : string) (s : SQLiteStore)
    : result (list ExecutionLog) :=
  if db_open s then
    Ok (merge_sort timestamp_asc
          (l_entry <$> filter (λ row, l_execution_id row = id)
                         (execution_logs s)))
  else Err StorageFailure.

(** [UPDATE executions SET checkpoint = ?, updated_at = ? WHERE id = ?] *)
Definition update_checkpoint (id : string) (d : GoBytes) (now : Time)
    (t : gmap string ExecutionRow) : gmap string ExecutionRow :=
  alter (λ row, {| e_namespace := e_namespace row;
                   e_agent_name := e_agent_name row;
                   e_pipeline_name := e_pipeline_name row;
                   e_state := e_state row;
                   e_data := e_data row;
                   e_checkpoint := d;
                   e_created_at := e_created_at row;
                   e_updated_at := now |}) id t.

Definition SaveCheckpoint (now : Time) (executionID : string) (d : GoBytes)
    (s : SQLiteStore) : SQLiteStore * option Error :=
  if db_open s then
    (with_executions (update_checkpoint executionID d now (executions s)) s,
     None)
  else (s, Some StorageFailure).

(** The pair [LoadCheckpoint] returns: the bytes and the error. *)
Definition LoadCheckpoint (executionID : string) (s : SQLiteStore)
    : GoBytes * option Error :=
  if db_open s then
    match executions s !! executionID with
    | None => (None, None)
    | Some row => (e_checkpoint row, None)
    end
  else (None, Some StorageFailure).

(** *** Sequences of calls *)

(** The calls that can change the store, with the inputs of each. *)
Inductive Call :=
| CallPut (now : Time) (fresh : string) (resource : Res)
| CallDelete (kind : ResourceKind) (namespace name : string)
| CallUpdateStatus (now1 now2 : Time) (fresh : string) (kind : ResourceKind)
    (namespace name : string) (status : ResourceStatus)
| CallCreateExecution (now : Time) (fresh : string) (exec : Execution)
| CallUpdateExecution (now : Time) (exec : Execution)
| CallAppendExecutionLog (id : string) (logEntry : ExecutionLog)
| CallSaveCheckpoint (now : Time) (executionID : string) (d : GoBytes)
| CallWatch (kind : ResourceKind)
| CallReceive (kind : ResourceKind) (i : nat)
| CallClose.

Definition call (c : Call) (s : SQLiteStore) : SQLiteStore :=
  match c with
  | CallPut now fresh r => (Put now fresh s r).1.1
  | CallDelete k ns n => (Delete k ns n s).1
  | CallUpdateStatus now1 now2 fresh k ns n st =>
      (UpdateStatus now1 now2 fresh k ns n st s).1
  | CallCreateExecution now fresh e => (CreateExecution now fresh s e).1.1
  | CallUpdateExecution now e => (UpdateExecution now s e).1.1
  | CallAppendExecutionLog id l => (AppendExecutionLog id l s).1
  | CallSaveCheckpoint now id d => (SaveCheckpoint now id d s).1
  | CallWatch k => (Watch k s).1
  | CallReceive k i => (receive k i s).1
  | CallClose => Close s
  end.

Definition calls (cs : list Call) (s : SQLiteStore) : SQLiteStore :=
  foldl (λ s c, call c s) s cs.

(** *** Notions used to state the properties *)

(** A value that [encoding/json] reads back as it was written. *)
Definition round_trips {A} `{!JSON A} (a : A) : Prop :=
  ∀ d, marshal a = Some d → unmarshal d = Some a.

(** A sequence of [Put] calls, each with its clock reading and its fresh
    uuid; the result is the final store and the error of each call. *)
Fixpoint put_all (ps : list (Time * string * Res)) (s : SQLiteStore)
    : SQLiteStore * list (option Error) :=
  match ps with
  | [] => (s, [])
  | (now, fresh, r) :: ps =>
      let '(s1, _, e) := Put now fresh s r in
      let '(s2, es) := put_all ps s1 in
      (s2, e :: es)
  end.

(** The uid of the resource [Get] returns for a key, when it returns one. *)
Definition uid_at (k : Key) (s : SQLiteStore) : option string :=
  match Get k.1.1 k.1.2 k.2 s with
  | Ok res => Some (UID (Metadata res))
  | Err _ => None
  end.

(** The event types the specification gives a sequence of writes, from the
    keys written before: CREATED for the first write of a key, UPDATED for
    every later one. *)
Fixpoint spec_event_types (seen : list Key) (rs : list Res)
    : list EventType :=
  match rs with
  | [] => []
  | r :: rs =>
      (if decide (key_of r ∈ seen) then EventUpdated else EventCreated)
        :: spec_event_types (key_of r :: seen) rs
  end.

(** The event types queued, oldest first, on the [i]-th channel of a kind. *)
Definition queued_types (kind : ResourceKind) (i : nat) (s : SQLiteStore)
    : list EventType :=
  match chan_of kind i s with
  | Some ch => Type_ <$> buf ch
  | None => []
  end.

(** The rows a listing with namespace argument [namespace] ranges over. *)
Definition in_scope (namespace : string) (row : ExecutionRow) : Prop :=
  namespace = EmptyString ∨ e_namespace row = namespace.

(** The ids of a listing, in the order of the listing. *)
Definition ids_of (res : result (list Execution)) : option (list string) :=
  match res with
  | Ok l => Some (Exec.ID <$> l)
  | Err _ => None
  end.

(** Row [a] was created later than row [b]. *)
Definition newer (a b : ExecutionRow) : Prop :=
  e_created_at b < e_created_at a.

(** Every stored execution has data json can read. *)
Definition decodable (s : SQLiteStore) : Prop :=
  ∀ id row, executions s !! id = Some row → is_Some (unmarshal (e_data row)).

(** The executions a listing with argument [namespace] ranges over were
    created at pairwise distinct times. *)
Definition distinct_times (namespace : string) (s : SQLiteStore) : Prop :=
  ∀ id1 id2 row1 row2,
    executions s !! id1 = Some row1 → executions s !! id2 = Some row2 →
    in_scope namespace row1 → in_scope namespace row2 →
    id1 ≠ id2 → e_created_at row1 ≠ e_created_at row2.

(** Every channel of the store was made with capacity 100 and holds no more
    events than that. *)
Definition chan_ok {Any} (ch : Chan Any) : Prop :=
  cap ch = 100%nat ∧ (length (buf ch) ≤ cap ch)%nat.

Definition bounded_queues (s : SQLiteStore) : Prop :=
  ∀ kind chans, watchers s !! kind = Some chans → Forall chan_ok chans.

(** The keys a listing of [kind] with namespace argument [namespace] ranges
    over. *)
Definition listed (kind : ResourceKind) (namespace : string) (k : Key)
    : Prop :=
  k.1.1 = kind ∧ (namespace = EmptyString ∨ k.1.2 = namespace).

(** Every row of [resources] holds data json can read, and the resource read
    has the key of the row. *)
Definition keyed (s : SQLiteStore) : Prop :=
  ∀ k row, resources s !! k = Some row →
    ∃ res, unmarshal (data row) = Some res ∧ key_of res = k.

(** The resource [UpdateStatus] hands to [Put], as [Put] leaves it. *)
Definition status_update (now1 now2 : Time) (fresh : string)
    (status : ResourceStatus) (res : Res) : Res :=
  stamp now2 fresh (set_Status (set_LastUpdated now1 status) res).

(** The uids of a listing of resources, in the order of the listing. *)
Definition uids_of (res : result (list Res)) : option (list string) :=
  match res with
  | Ok l => Some ((λ r, UID (Metadata r)) <$> l)
  | Err _ => None
  end.

(** The tables of two stores are the same. *)
Definition same_tables (s1 s2 : SQLiteStore) : Prop :=
  resources s1 = resources s2 ∧ executions s1 = executions s2 ∧
  execution_logs s1 = execution_logs s2.

(** The row of [id] exists and its checkpoint column is NULL. *)
Definition unsaved (id : string) (s : SQLiteStore) : Prop :=
  ∃ row, executions s !! id = Some row ∧ e_checkpoint row = None.

(** A call other than [SaveCheckpoint] on execution [id]. *)
Definition not_checkpoint_of (id : string) (c : Call) : Prop :=
  match c with
  | CallSaveCheckpoint _ id' _ => id' ≠ id
  | _ => True
  end.

End Store.

(** ** A concrete instance

    The serialized form is the record itself, so both directions of
    [encoding/json] are total and lossless; the payload is a string. *)
Module Sample.

#[export] Instance resource_json : JSON (GenericResource string) :=
  {| json := GenericResource string; marshal := Some; unmarshal := Some |}.

#[export] Instance execution_json : JSON (ExecutionRecord string) :=
  {| json := ExecutionRecord string; marshal := Some; unmarshal := Some |}.

Definition Store : Type := SQLiteStore (Any := string).

Definition status (state health : string) (t : Time) : ResourceStatus :=
  {| State := state; Health := health; LastUpdated := t |}.

(** Agent [default/summarizer] with the given uid and status, as a caller
    builds it. *)
Definition agent (u : string) (st : ResourceStatus) : GenericResource string :=
  {| Kind := "Agent"%string;
     Metadata := {| Namespace := "default"%string;
                    Name := "summarizer"%string;
                    UID := u; CreatedAt := 0; UpdatedAt := 0 |};
     Spec := "model: small"%string;
     Status := st |}.

Definition agent_key : Key := ("Agent", "default", "summarizer")%string.

Definition execution (id namespace : string) : ExecutionRecord string :=
  Exec.Build_ExecutionRecord string id "summarizer"%string EmptyString
    namespace ExecPending ∅ ∅ 0 0 None 0 3 0 EmptyString [] 0 0 0 0
    None None.

(** An open store with one watcher of kind Agent. *)
Definition watched : Store := (Watch "Agent"%string NewSQLiteStore).1.

(** Executions [a], [b] in namespace [team] and [c] in namespace [other],
    created at times 10, 20 and 30. *)
Definition ledger : Store :=
  let s := (CreateExecution 10 "x"%string NewSQLiteStore
              (execution "a"%string "team"%string)).1.1 in
  let s := (CreateExecution 20 "x"%string s
              (execution "b"%string "team"%string)).1.1 in
  (CreateExecution 30 "x"%string s
     (execution "c"%string "other"%string)).1.1.

Definition unset : ResourceStatus := status EmptyString EmptyString 0.
Definition ready : ResourceStatus := status "Ready"%string "Healthy"%string 0.

(** The store after a first [Put] of the agent, given without uid, at time 5
    with generated uuid [uid-1]; and the resource as that [Put] left it. *)
Definition created : Store :=
  (Put 5 "uid-1"%string NewSQLiteStore (agent EmptyString unset)).1.1.
Definition created_agent : GenericResource string :=
  (Put 5 "uid-1"%string NewSQLiteStore (agent EmptyString unset)).1.2.

(** Two watchers of kind Agent: the first never drained and holding 100
    events, the second registered after them and empty. *)
Definition crowded : Store :=
  (Watch "Agent"%string
     (put_all (replicate 100 (1, "uid-0"%string, agent EmptyString unset))
        watched).1).1.
Definition full_chan : Chan string :=
  default (make_chan 0) (chan_of "Agent"%string 0 crowded).

(** Execution [a] in the namespace with the empty name, created at time 10,
    and execution [c] in namespace [other], created at time 30. *)
Definition mixed : Store :=
  let s := (CreateExecution 10 "x"%string NewSQLiteStore
              (execution "a"%string EmptyString)).1.1 in
  (CreateExecution 30 "x"%string s
     (execution "c"%string "other"%string)).1.1.

(** The watched store after the same first [Put]. *)
Definition announced : Store :=
  (Put 5 "uid-1"%string watched (agent EmptyString unset)).1.1.

(** Calls after the creation of execution [a], none of them a
    [SaveCheckpoint] for [a]. *)
Definition other_calls : list (Call (Any := string)) :=
  [CallPut 20 "uid-1"%string (agent EmptyString unset);
   CallUpdateExecution 30 (execution "a"%string "team"%string);
   CallSaveCheckpoint 40 "b"%string (Some [x01])].

Definition started : Store :=
  (CreateExecution 10 "x"%string NewSQLiteStore
     (execution "a"%string "team"%string)).1.1.
Definition started_execution : ExecutionRecord string :=
  (CreateExecution 10 "x"%string NewSQLiteStore
     (execution "a"%string "team"%string)).1.2.

Definition never_saved : Store := calls other_calls started.

(** The row written for execution [a] of the ledger. *)
Definition row_a : ExecutionRow :=
  {| e_namespace := "team"%string; e_agent_name := "summarizer"%string;
     e_pipeline_name := EmptyString; e_state := ExecPending;
     e_data := Exec.set_UpdatedAt 10
                 (Exec.set_CreatedAt 10 (execution "a"%string "team"%string));
     e_checkpoint := None; e_created_at := 10; e_updated_at := 10 |}.

Definition sample_event : ResourceEvent string :=
  {| Type_ := EventUpdated; Resource := created_agent |}.

(** Pipeline [default/nightly] and agent [staging/summarizer], as a caller
    builds them. *)
Definition pipeline : GenericResource string :=
  {| Kind := "Pipeline"%string;
     Metadata := {| Namespace := "default"%string; Name := "nightly"%string;
                    UID := EmptyString; CreatedAt := 0; UpdatedAt := 0 |};
     Spec := "steps: 2"%string;
     Status := unset |}.

Definition staging_agent : GenericResource string :=
  {| Kind := "Agent"%string;
     Metadata := {| Namespace := "staging"%string;
                    Name := "summarizer"%string;
                    UID := EmptyString; CreatedAt := 0; UpdatedAt := 0 |};
     Spec := "model: large"%string;
     Status := unset |}.

(** The writes that fill the catalog: the agent, the pipeline, the staging
    agent, and the agent a second time. *)
Definition catalog_puts : list (Time * string * GenericResource string) :=
  [(1, "uid-1"%string, agent EmptyString unset);
   (2, "uid-2"%string, pipeline);
   (3, "uid-3"%string, staging_agent);
   (4, "uid-4"%string, agent EmptyString ready)].

Definition catalog : Store := (put_all catalog_puts NewSQLiteStore).1.

(** One watcher of kind Agent and 101 writes of the agent. *)
Definition flood : list (Call (Any := string)) :=
  CallWatch "Agent"%string ::
  replicate 101 (CallPut 1 "uid-0"%string (agent EmptyString unset)).

Definition flooded_chan : Chan string :=
  default (make_chan 0) (chan_of "Agent"%string 0 (calls flood NewSQLiteStore)).

(** Calls on the watched store, a [Close] and a receive among them. *)
Definition busy_calls : list (Call (Any := string)) :=
  other_calls ++ [CallReceive "Agent"%string 0; CallWatch "Agent"%string;
                  CallDelete "Agent"%string "default"%string
                    "summarizer"%string;
                  CallClose;
                  CallWatch "Pipeline"%string].

(** Execution [a] of the ledger as a caller changes it: another namespace,
    state Running, a checkpoint in the record. *)
Definition moved : ExecutionRecord string :=
  Exec.Build_ExecutionRecord string "a"%string "summarizer"%string EmptyString
    "elsewhere"%string ExecRunning ∅ ∅ 1 2 (Some [x07]) 0 3 0 EmptyString []
    0 0 10 10 None None.

Definition log_at (t : Time) (message : string) : ExecutionLog :=
  {| Timestamp := t; Level := "info"%string; Message := message; Step := 0 |}.

(** The ledger with two log entries of execution [a], appended out of
    timestamp order, and one of execution [b]. *)
Definition logged : Store :=
  let s := (AppendExecutionLog "a"%string (log_at 30 "third"%string)
              ledger).1 in
  let s := (AppendExecutionLog "b"%string (log_at 15 "other"%string) s).1 in
  (AppendExecutionLog "a"%string (log_at 10 "first"%string) s).1.

End Sample.

(** * Properties *)

Section Facts.
Context {Any : Type}.
Context `{ResJSON : !JSON (GenericResource Any)}.
Context `{ExecJSON : !JSON (ExecutionRecord Any)}.

Local Abbreviation Res := (GenericResource Any).
Local Abbreviation Execution := (ExecutionRecord Any).
Local Abbreviation Event := (ResourceEvent Any).
Local Abbreviation Store := (SQLiteStore (Any := Any)).

Implicit Types (s : Store) (r res : Res) (now : Time) (fresh : string).
Implicit Types (k : Key) (kind : ResourceKind) (ev : Event).

(** ** What [stamp] leaves alone and what it sets *)

Lemma stamp_key now fresh r : key_of (stamp now fresh r) = key_of r.
Proof. unfold stamp, key_of; simpl. by case_decide. Qed.

Lemma stamp_Kind now fresh r : Kind (stamp now fresh r) = Kind r.
Proof. done. Qed.

Lemma stamp_Spec now fresh r : Spec (stamp now fresh r) = Spec r.
Proof. done. Qed.

Lemma stamp_UID now fresh r :
  UID (Metadata (stamp now fresh r)) =
    if decide (UID (Metadata r) = EmptyString) then fresh
    else UID (Metadata r).
Proof. unfold stamp; simpl. by case_decide. Qed.

(** ** The tables under [emit], [Put] and [Delete] *)

Lemma emit_resources kind ev s : resources (emit kind ev s) = resources s.
Proof. done. Qed.

Lemma emit_db_open kind ev s : db_open (emit kind ev s) = db_open s.
Proof. done. Qed.

Lemma upsert_lookup k (u : string) (d : json (A := Res)) now
    (t : gmap Key ResourceRow) :
  ∃ row, upsert k u d now t !! k = Some row ∧ data row = d.
Proof.
  unfold upsert. destruct (t !! k) as [row|];
    rewrite lookup_insert_eq; eauto.
Qed.

Lemma upsert_lookup_ne k k' (u : string) (d : json (A := Res)) now
    (t : gmap Key ResourceRow) :
  k ≠ k' → upsert k u d now t !! k' = t !! k'.
Proof.
  intros Hne. unfold upsert.
  destruct (t !! k); by rewrite lookup_insert_ne.
Qed.

(** A successful [Put], spelled out. *)
Lemma Put_ok_inv now fresh s r s' r' :
  Put now fresh s r = (s', r', None) →
  db_open s = true ∧ r' = stamp now fresh r ∧
  ∃ d, marshal r' = Some d ∧
    s' = emit (Kind r')
           {| Type_ := if bool_decide (UID (Metadata r) = EmptyString)
                       then EventCreated else EventUpdated;
              Resource := r' |}
           (with_resources
              (upsert (key_of r') (UID (Metadata r')) d now (resources s)) s).
Proof.
  unfold Put. destruct (marshal (stamp now fresh r)) as [d|] eqn:Hm;
    [|by intros [=]].
  destruct (db_open s) eqn:Ho; [|by intros [=]].
  intros [= <- <-]. split_and!; [done..|]. exists d. by rewrite Hm.
Qed.

Lemma Put_db_open now fresh s r :
  db_open (Put now fresh s r).1.1 = db_open s.
Proof.
  unfold Put. destruct (marshal _); [|done]. by destruct (db_open s) eqn:?.
Qed.

(** After a successful [Put] of a resource that json reads back, [Get] on
    its key returns the resource as [Put] left it. *)
Lemma Get_Put now fresh s r s' r' :
  Put now fresh s r = (s', r', None) →
  round_trips r' →
  Get (Kind r) (Namespace (Metadata r)) (Name (Metadata r)) s' = Ok r'.
Proof.
  intros HPut Hrt.
  destruct (Put_ok_inv _ _ _ _ _ _ HPut) as (Ho & Hr' & d & Hm & ->).
  unfold Get. rewrite emit_db_open, emit_resources. cbn [db_open resources with_resources]. rewrite Ho.
  change (Kind r, Namespace (Metadata r), Name (Metadata r)) with (key_of r).
  rewrite <- (stamp_key now fresh r), <- Hr'.
  destruct (upsert_lookup (key_of r') (UID (Metadata r')) d now (resources s))
    as (row & -> & ->).
  by rewrite (Hrt d Hm).
Qed.

Lemma uid_at_Put now fresh s r s' r' :
  Put now fresh s r = (s', r', None) →
  round_trips r' →
  uid_at (key_of r) s' = Some (UID (Metadata r')).
Proof.
  intros HPut Hrt. unfold uid_at, key_of; simpl.
  by rewrite (Get_Put _ _ _ _ _ _ HPut Hrt).
Qed.

Lemma put_all_cons now fresh r ps s :
  put_all ((now, fresh, r) :: ps) s =
    ((put_all ps (Put now fresh s r).1.1).1,
     (Put now fresh s r).2 :: (put_all ps (Put now fresh s r).1.1).2).
Proof.
  simpl. destruct (Put now fresh s r) as [[s1 r1] e]; simpl.
  by destruct (put_all ps s1).
Qed.

(** C1, as amended.  [Put] generates a uid only for a resource that comes
    with an empty one and otherwise keeps the uid it is given.  In a
    sequence of successful [Put] calls on one key in which every call after
    the first is given a resource that carries the uid of the first, [Get]
    returns that uid after the first call and after the whole sequence
    (hence after each prefix of it). *)
Theorem uid_kept_when_carried now fresh s r s1 r1
    (ps : list (Time * string * Res)) :
  Put now fresh s r = (s1, r1, None) →
  round_trips r1 →
  UID (Metadata r1) ≠ EmptyString →
  Forall (λ p, key_of p.2 = key_of r1 ∧
               UID (Metadata p.2) = UID (Metadata r1) ∧
               round_trips (stamp p.1.1 p.1.2 p.2)) ps →
  Forall (eq None) (put_all ps s1).2 →
  UID (Metadata r1) =
    (if decide (UID (Metadata r) = EmptyString) then fresh
     else UID (Metadata r)) ∧
  uid_at (key_of r1) s1 = Some (UID (Metadata r1)) ∧
  uid_at (key_of r1) (put_all ps s1).1 = Some (UID (Metadata r1)).
Proof.
  intros HPut Hrt Hne Hps Hok.
  assert (Hfirst : uid_at (key_of r1) s1 = Some (UID (Metadata r1))).
  { destruct (Put_ok_inv _ _ _ _ _ _ HPut) as (_ & Hr1 & _).
    rewrite Hr1 at 1. rewrite stamp_key. by apply (uid_at_Put now fresh s). }
  split_and!; [|done|].
  { destruct (Put_ok_inv _ _ _ _ _ _ HPut) as (_ & -> & _).
    apply stamp_UID. }
  clear HPut Hrt. revert s1 Hfirst Hok.
  induction Hps as [|[[now' fresh'] r'] ps (Hk & Hu & Hrt') _ IH];
    intros s1 Hfirst Hok; [done|].
  simpl in Hk, Hu, Hrt'. rewrite put_all_cons in Hok |- *. simpl in *.
  apply Forall_cons in Hok as [Hok1 Hok].
  destruct (Put now' fresh' s1 r') as [[s2 r2] e] eqn:HPut'. simpl in *.
  subst e. apply IH; [|done].
  destruct (Put_ok_inv _ _ _ _ _ _ HPut') as (_ & Hr2 & _).
  rewrite <- Hk, (uid_at_Put _ _ _ _ _ _ HPut'); [|by rewrite Hr2].
  f_equal. rewrite Hr2, stamp_UID, Hu. by case_decide.
Qed.

(** ** Channels under [emit] *)

Lemma chan_of_emit kind ev s i :
  chan_of kind i (emit kind ev s) = try_send ev <$> chan_of kind i s.
Proof.
  unfold chan_of, emit; simpl. rewrite lookup_alter_eq.
  destruct (watchers s !! kind) as [chans|]; simpl; [|done].
  by rewrite list_lookup_fmap.
Qed.

Lemma chan_of_emit_ne kind kind' ev s i :
  kind ≠ kind' → chan_of kind' i (emit kind ev s) = chan_of kind' i s.
Proof.
  intros Hne. unfold chan_of, emit; simpl. by rewrite lookup_alter_ne.
Qed.

Lemma try_send_room ev (ch : Chan Any) :
  (length (buf ch) < cap ch)%nat →
  try_send ev ch = {| cap := cap ch; buf := buf ch ++ [ev] |}.
Proof. intros Hlt. unfold try_send. by case_decide. Qed.

Lemma try_send_full ev (ch : Chan Any) :
  (cap ch ≤ length (buf ch))%nat → try_send ev ch = ch.
Proof. intros Hge. unfold try_send. case_decide; [lia|done]. Qed.

(** What a successful [Put] does to the channels of the kind it writes. *)
Lemma chan_of_Put now fresh s r s' r' i :
  Put now fresh s r = (s', r', None) →
  chan_of (Kind r) i s' =
    try_send {| Type_ := if bool_decide (UID (Metadata r) = EmptyString)
                         then EventCreated else EventUpdated;
                Resource := r' |}
      <$> chan_of (Kind r) i s.
Proof.
  intros HPut.
  destruct (Put_ok_inv _ _ _ _ _ _ HPut) as (_ & Hr' & d & _ & ->).
  rewrite Hr' at 1. rewrite stamp_Kind. by rewrite chan_of_emit.
Qed.

(** A watcher of the kind whose queue has room finds the event of a
    successful [Put] appended to its queue: CREATED when the resource given
    has an empty uid, UPDATED otherwise. *)
Lemma put_event_appended now fresh s r s' r' i (ch : Chan Any) :
  Put now fresh s r = (s', r', None) →
  chan_of (Kind r) i s = Some ch →
  (length (buf ch) < cap ch)%nat →
  ∃ ev, chan_of (Kind r) i s' =
          Some {| cap := cap ch; buf := buf ch ++ [ev] |} ∧
        Resource ev = r' ∧
        (UID (Metadata r) = EmptyString → Type_ ev = EventCreated) ∧
        (UID (Metadata r) ≠ EmptyString → Type_ ev = EventUpdated).
Proof.
  intros HPut Hch Hroom. eexists. split.
  - rewrite (chan_of_Put _ _ _ _ _ _ _ HPut), Hch. simpl.
    by rewrite try_send_room.
  - simpl. split_and!; [done|..]; intros Hu.
    + by rewrite bool_decide_eq_true_2.
    + by rewrite bool_decide_eq_false_2.
Qed.

(** C2, as amended.  In every sequence of successful [Put] calls on resources
    of one kind, the event of a call has type CREATED exactly when the
    resource given to that call has an empty uid, and UPDATED otherwise: a
    watcher of the kind whose queue has room for them finds these types
    appended to its queue, in the order of the calls. *)
Theorem put_event_types kind i s (ch : Chan Any)
    (ps : list (Time * string * Res)) :
  chan_of kind i s = Some ch →
  (length (buf ch) + length ps ≤ cap ch)%nat →
  Forall (λ p, Kind p.2 = kind) ps →
  Forall (eq None) (put_all ps s).2 →
  queued_types kind i (put_all ps s).1 =
    (Type_ <$> buf ch) ++
    ((λ p, if decide (UID (Metadata p.2) = EmptyString)
           then EventCreated else EventUpdated) <$> ps).
Proof.
  intros Hch Hroom Hkind. revert s ch Hch Hroom.
  induction Hkind as [|[[now fresh] r] ps Hk _ IH]; intros s ch Hch Hroom Hok.
  - unfold queued_types. simpl. by rewrite Hch, app_nil_r.
  - simpl in Hk. rewrite put_all_cons in Hok |- *. simpl in *.
    apply Forall_cons in Hok as [Hok1 Hok].
    destruct (Put now fresh s r) as [[s1 r1] e] eqn:HPut. simpl in *.
    subst e kind.
    destruct (put_event_appended _ _ _ _ _ _ i ch HPut Hch)
      as (ev & Hch1 & _ & Hnew & Hold); [lia|].
    rewrite (IH s1 _ Hch1); [|simpl; rewrite length_app; simpl; lia|done].
    simpl. rewrite fmap_app, <- app_assoc. simpl. do 2 f_equal.
    case_decide; [by apply Hnew|by apply Hold].
Qed.

(** C3, as amended.  After a successful [Put] of a resource that json reads
    back, [Get] on its key returns the resource as [Put] left it: equal to
    the resource given in kind, namespace, name and spec; [updatedAt] and
    the status' [lastUpdated] are the write time; [uid] and [createdAt] are
    the generated uid and the write time when the given uid is empty and
    the given values otherwise; the status' state and health are
    Registered and Unknown when the given state is empty and the given
    values otherwise. *)
Theorem put_get_round_trip now fresh s r s' r' :
  Put now fresh s r = (s', r', None) →
  round_trips r' →
  ∃ got,
    Get (Kind r) (Namespace (Metadata r)) (Name (Metadata r)) s' = Ok got ∧
    got = r' ∧
    Kind got = Kind r ∧
    Namespace (Metadata got) = Namespace (Metadata r) ∧
    Name (Metadata got) = Name (Metadata r) ∧
    Spec got = Spec r ∧
    UpdatedAt (Metadata got) = now ∧
    LastUpdated (Status got) = now ∧
    (UID (Metadata r) = EmptyString →
       UID (Metadata got) = fresh ∧ CreatedAt (Metadata got) = now) ∧
    (UID (Metadata r) ≠ EmptyString →
       UID (Metadata got) = UID (Metadata r) ∧
       CreatedAt (Metadata got) = CreatedAt (Metadata r)) ∧
    (State (Status r) = EmptyString →
       State (Status got) = "Registered"%string ∧
       Health (Status got) = "Unknown"%string) ∧
    (State (Status r) ≠ EmptyString →
       State (Status got) = State (Status r) ∧
       Health (Status got) = Health (Status r)).
Proof.
  intros HPut Hrt. exists r'. split; [by apply (Get_Put now fresh s)|].
  destruct (Put_ok_inv _ _ _ _ _ _ HPut) as (_ & -> & _).
  unfold stamp; simpl.
  split_and!; try intros Hc; by repeat case_decide.
Qed.

(** ** Delete *)

Lemma getUnlocked_Get kind namespace name s :
  getUnlocked kind namespace name s = Get kind namespace name s.
Proof. done. Qed.

Lemma Delete_ok_inv kind namespace name s s' :
  Delete kind namespace name s = (s', None) →
  db_open s = true ∧
  ∃ res, getUnlocked kind namespace name s = Ok res ∧
    s' = emit kind {| Type_ := EventDeleted; Resource := res |}
           (with_resources (delete (kind, namespace, name) (resources s)) s).
Proof.
  unfold Delete. destruct (getUnlocked kind namespace name s) as [res|e] eqn:Hg;
    [|by intros [=]].
  destruct (db_open s) eqn:Ho; [|by intros [=]].
  intros [= <-]. eauto.
Qed.

Lemma Get_after_Delete kind namespace name s s' :
  Delete kind namespace name s = (s', None) →
  Get kind namespace name s' = Err NotFound.
Proof.
  intros HD. destruct (Delete_ok_inv _ _ _ _ _ HD) as (Ho & res & _ & ->).
  unfold Get. rewrite emit_db_open, emit_resources.
  cbn [db_open resources with_resources]. by rewrite Ho, lookup_delete_eq.
Qed.

Lemma Delete_absent kind namespace name s :
  db_open s = true →
  resources s !! (kind, namespace, name) = None →
  Delete kind namespace name s = (s, Some NotFound).
Proof.
  intros Ho Hn. unfold Delete, getUnlocked. by rewrite Ho, Hn.
Qed.

(** C7.  A successful [Delete] of a key is followed by a [Get] of that key
    that fails with NotFound; a [Delete] of a key with no stored resource
    fails with NotFound and returns the store as it was, so no channel of any
    watcher has received an event. *)
Theorem delete_then_get kind namespace name s0 s1 s :
  Delete kind namespace name s0 = (s1, None) →
  db_open s = true →
  resources s !! (kind, namespace, name) = None →
  Get kind namespace name s1 = Err NotFound ∧
  Delete kind namespace name s = (s, Some NotFound) ∧
  watchers (Delete kind namespace name s).1 = watchers s.
Proof.
  intros HD Ho Hn. split; [by apply (Get_after_Delete _ _ _ s0)|].
  by rewrite (Delete_absent _ _ _ _ Ho Hn).
Qed.

(** ** Checkpoints *)

Lemma update_checkpoint_lookup id (d : GoBytes) now
    (t : gmap string ExecutionRow) row :
  t !! id = Some row →
  ∃ row', update_checkpoint id d now t !! id = Some row' ∧
          e_checkpoint row' = d.
Proof.
  intros Hrow. unfold update_checkpoint.
  rewrite lookup_alter_eq, Hrow. simpl. eauto.
Qed.

Lemma SaveCheckpoint_ok_inv now id (d : GoBytes) s s' :
  SaveCheckpoint now id d s = (s', None) →
  db_open s = true ∧
  s' = with_executions (update_checkpoint id d now (executions s)) s.
Proof.
  unfold SaveCheckpoint. destruct (db_open s); [|by intros [=]].
  by intros [= <-].
Qed.

Lemma LoadCheckpoint_after_Save now id (d : GoBytes) s s' :
  is_Some (executions s !! id) →
  SaveCheckpoint now id d s = (s', None) →
  LoadCheckpoint id s' = (d, None).
Proof.
  intros [row Hrow] HS.
  destruct (SaveCheckpoint_ok_inv _ _ _ _ _ HS) as (Ho & ->).
  unfold LoadCheckpoint. cbn [db_open executions with_executions]. rewrite Ho.
  destruct (update_checkpoint_lookup id d now _ _ Hrow) as (row' & -> & Hd).
  by rewrite Hd.
Qed.

Lemma SaveCheckpoint_keeps_row now id (d : GoBytes) s s' :
  is_Some (executions s !! id) →
  SaveCheckpoint now id d s = (s', None) →
  is_Some (executions s' !! id).
Proof.
  intros [row Hrow] HS.
  destruct (SaveCheckpoint_ok_inv _ _ _ _ _ HS) as (_ & ->).
  destruct (update_checkpoint_lookup id d now _ _ Hrow) as (row' & Hr & _).
  by exists row'.
Qed.

(** C4.  For an execution id that has a row, a successful
    [SaveCheckpoint id bytes] followed by [LoadCheckpoint id] returns exactly
    [bytes] and no error, whatever checkpoint the row held before; after two
    successful saves the load returns the bytes of the second. *)
Theorem checkpoint_save_then_load now1 now2 id (bytes1 bytes2 : GoBytes)
    s s1 s2 :
  is_Some (executions s !! id) →
  SaveCheckpoint now1 id bytes1 s = (s1, None) →
  SaveCheckpoint now2 id bytes2 s1 = (s2, None) →
  LoadCheckpoint id s1 = (bytes1, None) ∧
  LoadCheckpoint id s2 = (bytes2, None).
Proof.
  intros Hrow HS1 HS2. split.
  - by apply (LoadCheckpoint_after_Save now1 id bytes1 s).
  - apply (LoadCheckpoint_after_Save now2 id bytes2 s1); [|done].
    by apply (SaveCheckpoint_keeps_row now1 id bytes1 s).
Qed.

(** C10.  For an execution id with no row, [LoadCheckpoint] on an open store
    returns the nil slice and no error, not NotFound: the very pair it
    returns for an execution that has a row whose checkpoint was never
    saved. *)
Theorem load_checkpoint_missing_execution id id' s row :
  db_open s = true →
  executions s !! id = None →
  executions s !! id' = Some row →
  e_checkpoint row = None →
  LoadCheckpoint id s = (None, None) ∧
  LoadCheckpoint id s = LoadCheckpoint id' s.
Proof.
  intros Ho Hn Hrow Hc. unfold LoadCheckpoint. by rewrite Ho, Hn, Hrow, Hc.
Qed.

(** ** UpdateExecution *)

Lemma update_execution_absent id (st : string) (d : json (A := Execution))
    now (t : gmap string ExecutionRow) :
  t !! id = None → update_execution id st d now t = t.
Proof.
  intros Hn. unfold update_execution. apply map_eq. intros j.
  rewrite lookup_alter. case_decide; [|done]. subst j. by rewrite Hn.
Qed.

Lemma with_executions_id s : with_executions (executions s) s = s.
Proof. by destruct s. Qed.

(** Whatever the outcome, [UpdateExecution] for an id with no row leaves the
    store as it was and never reports NotFound. *)
Lemma UpdateExecution_absent_store now s (exec : Execution) :
  executions s !! Exec.ID exec = None →
  (UpdateExecution now s exec).1.1 = s ∧
  (UpdateExecution now s exec).2 ≠ Some NotFound.
Proof.
  intros Hn. unfold UpdateExecution.
  destruct (marshal (Exec.set_UpdatedAt now exec)) as [d|]; [|done].
  destruct (db_open s); [|done]. simpl.
  by rewrite update_execution_absent, with_executions_id.
Qed.

(** C9.  For a record whose id has no row, [UpdateExecution] on an open store
    (the record being one json can write) returns no error and the store it
    was given: nothing is inserted and no stored execution changes. *)
Theorem update_execution_missing_row now s (exec : Execution) :
  executions s !! Exec.ID exec = None →
  db_open s = true →
  is_Some (marshal (Exec.set_UpdatedAt now exec)) →
  UpdateExecution now s exec = (s, Exec.set_UpdatedAt now exec, None).
Proof.
  intros Hn Ho [d Hm]. unfold UpdateExecution. rewrite Hm, Ho. simpl.
  by rewrite update_execution_absent, with_executions_id.
Qed.

(** ** An execution whose checkpoint was never saved *)

Lemma Put_executions now fresh s r :
  executions (Put now fresh s r).1.1 = executions s.
Proof.
  unfold Put. destruct (marshal _); [|done]. by destruct (db_open s).
Qed.

Lemma Delete_executions kind namespace name s :
  executions (Delete kind namespace name s).1 = executions s.
Proof.
  unfold Delete. destruct (getUnlocked _ _ _ _); [|done].
  by destruct (db_open s).
Qed.

Lemma UpdateStatus_executions now1 now2 fresh kind namespace name st s :
  executions (UpdateStatus now1 now2 fresh kind namespace name st s).1 =
    executions s.
Proof.
  unfold UpdateStatus. destruct (Get _ _ _ _) as [res|]; [|done].
  pose proof (Put_executions now2 fresh s
                (set_Status (set_LastUpdated now1 st) res)) as HP.
  by destruct (Put _ _ _ _) as [[s' r'] e].
Qed.

Lemma receive_executions kind i s :
  executions (receive kind i s).1 = executions s.
Proof. unfold receive. by destruct (_ ≫= _) as [[ev ch]|]. Qed.

Lemma CreateExecution_ok_inv now fresh s (exec : Execution) s' exec' :
  CreateExecution now fresh s exec = (s', exec', None) →
  db_open s = true ∧ executions s !! Exec.ID exec' = None ∧
  ∃ row, executions s' = <[Exec.ID exec' := row]> (executions s) ∧
         e_checkpoint row = None ∧ e_created_at row = now ∧
         e_namespace row = Exec.Namespace exec ∧ db_open s' = true.
Proof.
  unfold CreateExecution, insert_execution.
  destruct (marshal _) as [d|]; [|by intros [=]].
  destruct (db_open s) eqn:Ho; [|by intros [=]].
  destruct (executions s !! _) eqn:Hl; [by intros [=]|].
  intros [= <- <-]. split_and!; [done..|]. eexists. split; [done|].
  simpl. split_and!; try done. by case_decide.
Qed.

Lemma CreateExecution_unsaved now fresh s (exec : Execution) id :
  unsaved id s → unsaved id (CreateExecution now fresh s exec).1.1.
Proof.
  intros (row & Hrow & Hc).
  destruct (CreateExecution now fresh s exec) as [[s' exec'] [e|]] eqn:HC.
  - assert (s' = s) as ->; [|by exists row].
    revert HC. unfold CreateExecution.
    destruct (marshal _); [|by intros [= <-]].
    destruct (db_open s); [|by intros [= <-]].
    destruct (insert_execution _ _ _); by intros [= <-].
  - destruct (CreateExecution_ok_inv _ _ _ _ _ _ HC)
      as (_ & Hn & row' & Ht & _).
    exists row. split; [|done]. simpl. rewrite Ht, lookup_insert_ne; [done|].
    intros Heq. rewrite Heq in Hn. congruence.
Qed.

Lemma UpdateExecution_unsaved now s (exec : Execution) id :
  unsaved id s → unsaved id (UpdateExecution now s exec).1.1.
Proof.
  intros (row & Hrow & Hc). unfold UpdateExecution.
  destruct (marshal _) as [d|]; [|by exists row].
  destruct (db_open s); [|by exists row].
  unfold unsaved, update_execution. simpl. rewrite lookup_alter.
  case_decide as Hid; [|by exists row]. rewrite <- Hid in Hrow.
  rewrite Hrow. simpl. eauto.
Qed.

Lemma SaveCheckpoint_other_unsaved now id' (d : GoBytes) s id :
  id' ≠ id → unsaved id s → unsaved id (SaveCheckpoint now id' d s).1.
Proof.
  intros Hne (row & Hrow & Hc). unfold SaveCheckpoint.
  destruct (db_open s); [|by exists row].
  exists row. split; [|done]. simpl. unfold update_checkpoint.
  by rewrite lookup_alter_ne.
Qed.

Lemma call_unsaved id (c : Call) s :
  not_checkpoint_of id c → unsaved id s → unsaved id (call c s).
Proof.
  unfold unsaved at 2.
  destruct c; simpl; intros Hc Hu;
    rewrite ?Put_executions, ?Delete_executions, ?UpdateStatus_executions,
      ?receive_executions; try done.
  - by apply CreateExecution_unsaved.
  - by apply UpdateExecution_unsaved.
  - unfold AppendExecutionLog. by destruct (db_open s).
  - by apply SaveCheckpoint_other_unsaved.
Qed.

Lemma calls_unsaved id (cs : list Call) s :
  Forall (not_checkpoint_of id) cs → unsaved id s → unsaved id (calls cs s).
Proof.
  intros Hcs. revert s. induction Hcs as [|c cs Hc _ IH]; intros s Hu;
    [done|].
  apply IH. by apply call_unsaved.
Qed.

(** C5.  After a successful [CreateExecution] and any sequence of calls that
    contains no [SaveCheckpoint] for the new id and leaves the database open,
    [LoadCheckpoint] returns the nil slice and no error.  That pair differs
    from what a failed read returns (an error, here on the closed database)
    and from what is returned once an empty, non-nil checkpoint has been
    saved (a non-nil empty slice and no error). *)
Theorem load_checkpoint_never_saved now fresh s (exec : Execution) s1 exec1
    (cs : list Call) now' :
  CreateExecution now fresh s exec = (s1, exec1, None) →
  Forall (not_checkpoint_of (Exec.ID exec1)) cs →
  db_open (calls cs s1) = true →
  LoadCheckpoint (Exec.ID exec1) (calls cs s1) = (None, None) ∧
  LoadCheckpoint (Exec.ID exec1) (Close (calls cs s1)) =
    (None, Some StorageFailure) ∧
  LoadCheckpoint (Exec.ID exec1)
    (SaveCheckpoint now' (Exec.ID exec1) (Some []) (calls cs s1)).1 =
    (Some [], None) ∧
  LoadCheckpoint (Exec.ID exec1) (Close (calls cs s1)) ≠
    LoadCheckpoint (Exec.ID exec1) (calls cs s1) ∧
  LoadCheckpoint (Exec.ID exec1)
    (SaveCheckpoint now' (Exec.ID exec1) (Some []) (calls cs s1)).1 ≠
    LoadCheckpoint (Exec.ID exec1) (calls cs s1).
Proof.
  intros HC Hcs Ho.
  assert (Hu : unsaved (Exec.ID exec1) (calls cs s1)).
  { apply calls_unsaved; [done|].
    destruct (CreateExecution_ok_inv _ _ _ _ _ _ HC)
      as (_ & _ & row & Ht & Hck & _).
    exists row. by rewrite Ht, lookup_insert_eq. }
  destruct Hu as (row & Hrow & Hck).
  assert (Hload : LoadCheckpoint (Exec.ID exec1) (calls cs s1) = (None, None)).
  { unfold LoadCheckpoint. by rewrite Ho, Hrow, Hck. }
  assert (Hsave : LoadCheckpoint (Exec.ID exec1)
            (SaveCheckpoint now' (Exec.ID exec1) (Some []) (calls cs s1)).1 =
            (Some [], None)).
  { apply (LoadCheckpoint_after_Save now' _ _ (calls cs s1)); [by eexists|].
    unfold SaveCheckpoint. by rewrite Ho. }
  rewrite Hload, Hsave. by split_and!.
Qed.

(** ** The watch bus *)

Lemma Watch_new_chan kind s :
  chan_of kind (Watch kind s).2 (Watch kind s).1 = Some (make_chan 100).
Proof.
  unfold chan_of, Watch; simpl. rewrite lookup_insert_eq. simpl.
  by rewrite lookup_app_r, Nat.sub_diag.
Qed.

Lemma Watch_keeps kind kind' i s (ch : Chan Any) :
  chan_of kind' i s = Some ch → chan_of kind' i (Watch kind s).1 = Some ch.
Proof.
  unfold chan_of, Watch; simpl. intros Hch.
  destruct (decide (kind = kind')) as [->|Hne].
  - rewrite lookup_insert_eq. simpl.
    destruct (watchers s !! kind') as [chans|]; simpl in *; [|done].
    by apply lookup_app_l_Some.
  - by rewrite lookup_insert_ne.
Qed.

Lemma try_send_ok ev (ch : Chan Any) : chan_ok ch → chan_ok (try_send ev ch).
Proof.
  intros [Hcap Hlen]. unfold try_send. case_decide; [|done].
  split; [done|]. simpl. rewrite length_app. simpl. lia.
Qed.

Lemma emit_bounded kind ev s : bounded_queues s → bounded_queues (emit kind ev s).
Proof.
  intros Hb kind' chans. unfold emit; simpl. rewrite lookup_alter.
  case_decide as Hk; [|by apply Hb]. subst kind'.
  destruct (watchers s !! kind) as [chans0|] eqn:Hw; simpl; [|done].
  intros [= <-]. apply Forall_fmap.
  eapply Forall_impl; [by apply (Hb kind)|]. intros ch. apply try_send_ok.
Qed.

Lemma Put_bounded now fresh s r :
  bounded_queues s → bounded_queues (Put now fresh s r).1.1.
Proof.
  intros Hb. unfold Put. destruct (marshal _); [|done].
  destruct (db_open s); [|done]. by apply emit_bounded.
Qed.

Lemma Delete_bounded kind namespace name s :
  bounded_queues s → bounded_queues (Delete kind namespace name s).1.
Proof.
  intros Hb. unfold Delete. destruct (getUnlocked _ _ _ _); [|done].
  destruct (db_open s); [|done]. by apply emit_bounded.
Qed.

Lemma Watch_bounded kind s : bounded_queues s → bounded_queues (Watch kind s).1.
Proof.
  intros Hb kind' chans. unfold Watch; simpl. rewrite lookup_insert.
  case_decide as Hk; [|by apply Hb]. subst kind'. intros [= <-].
  apply Forall_app. split.
  - destruct (watchers s !! kind) as [chans0|] eqn:Hw; simpl; [|done].
    by apply (Hb kind).
  - apply Forall_singleton. split; simpl; [done|lia].
Qed.

Lemma receive_bounded kind i s :
  bounded_queues s → bounded_queues (receive kind i s).1.
Proof.
  intros Hb. unfold receive.
  destruct (chan_of kind i s ≫= try_recv) as [[ev ch']|] eqn:Hr; [|done].
  intros kind' chans. simpl. rewrite lookup_alter.
  case_decide as Hk; [|by apply Hb]. subst kind'.
  unfold chan_of in Hr.
  destruct (watchers s !! kind) as [chans0|] eqn:Hw; simpl in *; [|done].
  intros [= <-]. destruct (chans0 !! i) as [ch|] eqn:Hi; simpl in Hr; [|done].
  apply Forall_insert; [by apply (Hb kind)|].
  pose proof (Hb kind chans0 Hw) as Hall.
  rewrite Forall_lookup in Hall. destruct (Hall i ch Hi) as [Hcap Hlen].
  unfold try_recv in Hr. destruct (buf ch) as [|ev0 rest] eqn:Hbuf; [done|].
  injection Hr as <- <-. split; simpl; [done|]. simpl in Hlen. lia.
Qed.

Lemma call_bounded (c : Call) s : bounded_queues s → bounded_queues (call c s).
Proof.
  intros Hb. destruct c; simpl.
  - by apply Put_bounded.
  - by apply Delete_bounded.
  - unfold UpdateStatus. destruct (Get _ _ _ _) as [res|]; [|done].
    pose proof (Put_bounded now2 fresh s
                  (set_Status (set_LastUpdated now1 status) res) Hb) as HP.
    by destruct (Put _ _ _ _) as [[s' r'] e].
  - unfold CreateExecution. destruct (marshal _); [|done].
    destruct (db_open s); [|done]. by destruct (insert_execution _ _ _).
  - unfold UpdateExecution. destruct (marshal _); [|done].
    by destruct (db_open s).
  - unfold AppendExecutionLog. by destruct (db_open s).
  - unfold SaveCheckpoint. by destruct (db_open s).
  - by apply Watch_bounded.
  - by apply receive_bounded.
  - done.
Qed.

(** From the new store on, every channel has capacity 100 and never holds
    more than 100 events. *)
Lemma queues_stay_bounded (cs : list Call) :
  bounded_queues (calls cs (NewSQLiteStore (Any := Any))).
Proof.
  unfold calls.
  assert (Hinit : bounded_queues (NewSQLiteStore (Any := Any))) by done.
  revert Hinit. generalize (NewSQLiteStore (Any := Any)).
  induction cs as [|c cs IH]; intros s Hb; [done|].
  simpl. apply IH. by apply call_bounded.
Qed.

Lemma Put_succeeds now fresh s r :
  db_open s = true →
  is_Some (marshal (stamp now fresh r)) →
  Put now fresh s r =
    ((Put now fresh s r).1.1, stamp now fresh r, None).
Proof.
  intros Ho [d Hm]. unfold Put. by rewrite Hm, Ho.
Qed.

Lemma Delete_succeeds kind namespace name s res :
  getUnlocked kind namespace name s = Ok res →
  Delete kind namespace name s =
    (emit kind {| Type_ := EventDeleted; Resource := res |}
       (with_resources (delete (kind, namespace, name) (resources s)) s),
     None).
Proof.
  intros Hg. unfold Delete. rewrite Hg.
  destruct (db_open s) eqn:Ho; [done|].
  unfold getUnlocked in Hg. by rewrite Ho in Hg.
Qed.

(** C8.  [Watch] registers a channel of capacity 100 with an empty queue.
    An event published for a kind is offered to every channel of the kind,
    one by one: a channel whose queue is full is left as it is, a channel
    with room gets the event appended.  So with a full subscriber [i] and a
    subscriber [j] with room, a [Put] (on an open database, of a resource
    json can write) and a [Delete] (of a resource that is stored) still
    return no error, [i] keeps its queue and [j] receives the event. *)
Theorem full_queue_drops_event kind ev s i j (full ch : Chan Any) :
  chan_of kind i s = Some full →
  (cap full ≤ length (buf full))%nat →
  chan_of kind j s = Some ch →
  (length (buf ch) < cap ch)%nat →
  chan_of kind (Watch kind s).2 (Watch kind s).1 =
    Some {| cap := 100; buf := [] |} ∧
  chan_of kind i (emit kind ev s) = Some full ∧
  chan_of kind j (emit kind ev s) =
    Some {| cap := cap ch; buf := buf ch ++ [ev] |} ∧
  (∀ now fresh r,
     Kind r = kind → db_open s = true →
     is_Some (marshal (stamp now fresh r)) →
     ∃ s' e, Put now fresh s r = (s', stamp now fresh r, None) ∧
       chan_of kind i s' = Some full ∧
       chan_of kind j s' = Some {| cap := cap ch; buf := buf ch ++ [e] |} ∧
       Resource e = stamp now fresh r) ∧
  (∀ namespace name res,
     getUnlocked kind namespace name s = Ok res →
     ∃ s', Delete kind namespace name s = (s', None) ∧
       chan_of kind i s' = Some full ∧
       chan_of kind j s' =
         Some {| cap := cap ch;
                 buf := buf ch ++ [{| Type_ := EventDeleted;
                                      Resource := res |}] |}).
Proof.
  intros Hi Hfull Hj Hroom.
  assert (Hemit : ∀ e s0, watchers s0 = watchers s →
            chan_of kind i (emit kind e s0) = Some full ∧
            chan_of kind j (emit kind e s0) =
              Some {| cap := cap ch; buf := buf ch ++ [e] |}).
  { intros e s0 Hw. rewrite !chan_of_emit. unfold chan_of in *.
    rewrite Hw, Hi, Hj. simpl.
    by rewrite try_send_full, try_send_room. }
  split_and!.
  - apply Watch_new_chan.
  - by apply Hemit.
  - by apply Hemit.
  - intros now fresh r <- Ho Hm.
    pose proof (Put_succeeds _ _ _ _ Ho Hm) as HP.
    destruct (Put_ok_inv _ _ _ _ _ _ HP) as (_ & _ & d & _ & Hs').
    eexists _, _. split; [exact HP|]. rewrite Hs'.
    rewrite stamp_Kind. split_and!; [by apply Hemit..|done].
  - intros namespace name res Hg. eexists. split; [by apply Delete_succeeds|].
    by apply Hemit.
Qed.

(** ** ListExecutions *)

Lemma created_desc_total : Total (created_desc (Any := Any)).
Proof. intros a b. unfold created_desc. lia. Qed.

Lemma created_desc_trans : Transitive (created_desc (Any := Any)).
Proof. intros a b c. unfold created_desc. lia. Qed.

Lemma filter_snd {K V} (P : V → Prop) `{∀ v, Decision (P v)}
    (l : list (K * V)) :
  filter P (l.*2) = (filter (λ p, P p.2) l).*2.
Proof.
  induction l as [|[i v] l IH]; [done|].
  rewrite fmap_cons, !filter_cons. cbn [snd].
  case_decide; [rewrite fmap_cons; cbn [snd]|]; by rewrite IH.
Qed.

(** The rows the query scans before it sorts them are the values of a
    duplicate-free list of the stored (id, row) pairs in scope. *)
Lemma scanned_rows namespace (t : gmap string ExecutionRow) :
  ∃ sel : list (string * ExecutionRow),
    (if decide (namespace ≠ EmptyString)
     then filter (λ row, e_namespace row = namespace) (map_to_list t).*2
     else (map_to_list t).*2) = sel.*2 ∧
    NoDup sel ∧
    ∀ id row, (id, row) ∈ sel ↔ t !! id = Some row ∧ in_scope namespace row.
Proof.
  case_decide as Hns.
  - exists (filter (λ p, e_namespace p.2 = namespace) (map_to_list t)).
    split_and!.
    + exact (filter_snd (λ row, e_namespace row = namespace) (map_to_list t)).
    + apply NoDup_filter, NoDup_map_to_list.
    + intros id row. rewrite list_elem_of_filter, elem_of_map_to_list.
      unfold in_scope. simpl. split.
      * intros [Hn Hl]. split; [done|by right].
      * intros [Hl [He|Hn]]; [done|by split].
  - exists (map_to_list t). split_and!; [done|apply NoDup_map_to_list|].
    intros id row. rewrite elem_of_map_to_list. unfold in_scope.
    split; [intros Hl; split; [done|by left]|by intros [Hl _]].
Qed.

Lemma newer_of_distinct (l : list ExecutionRow) :
  StronglySorted created_desc l →
  NoDup (e_created_at <$> l) →
  StronglySorted newer l.
Proof.
  induction l as [|x l IH]; [constructor|].
  rewrite !StronglySorted_cons, fmap_cons, NoDup_cons.
  intros [Hx Hl] [Hnx Hnd]. split; [|by apply IH].
  rewrite Forall_forall in Hx |- *. intros y Hy.
  specialize (Hx y Hy). unfold created_desc, newer in *.
  assert (e_created_at x ≠ e_created_at y); [|lia].
  intros Heq. apply Hnx. rewrite Heq. by apply list_elem_of_fmap_2.
Qed.

(** C6, as amended.  With a limit above zero, [ListExecutions] returns at
    most that many executions, otherwise every one in scope; in scope are
    the executions of the namespace given or, when the namespace given is
    empty, those of every namespace.  When the executions in scope were
    created at pairwise distinct times, the result is ordered newest first,
    holds only executions in scope, falls short of the limit only when it
    holds all of them, and every execution in scope that is left out is older
    than every one returned. *)
Theorem list_executions_newest_first namespace limit s :
  db_open s = true →
  decodable s →
  distinct_times namespace s →
  ∃ rows results,
    ListExecutions namespace limit s = Ok results ∧
    Forall2 (λ row exec, unmarshal (e_data row) = Some exec) rows results ∧
    StronglySorted newer rows ∧
    (∀ row, row ∈ rows →
       in_scope namespace row ∧ ∃ id, executions s !! id = Some row) ∧
    (0 < limit →
       (length rows ≤ Z.to_nat limit)%nat ∧
       (length rows = Z.to_nat limit ∨
        ∀ id row, executions s !! id = Some row → in_scope namespace row →
                  row ∈ rows)) ∧
    (limit ≤ 0 →
       ∀ id row, executions s !! id = Some row → in_scope namespace row →
                 row ∈ rows) ∧
    (∀ id row row',
       executions s !! id = Some row → in_scope namespace row →
       row ∉ rows → row' ∈ rows → newer row' row).
Proof.
  intros Ho Hdec Hdist.
  pose proof created_desc_total as Htot.
  pose proof created_desc_trans as Htrans.
  unfold ListExecutions, select_executions. rewrite Ho.
  destruct (scanned_rows namespace (executions s)) as (sel & -> & Hnd & Hsel).
  set (sorted := merge_sort created_desc sel.*2).
  assert (Hperm : sorted ≡ₚ sel.*2) by apply merge_sort_Permutation.
  assert (Hin : ∀ row, row ∈ sorted ↔
            in_scope namespace row ∧ ∃ id, executions s !! id = Some row).
  { intros row. rewrite Hperm, list_elem_of_fmap. split.
    - intros ([id row'] & -> & Hp). apply Hsel in Hp as [Hl Hs]. simpl. eauto.
    - intros (Hsc & id & Hl). exists (id, row). split; [done|].
      by apply Hsel. }
  assert (Hstrict : StronglySorted newer sorted).
  { apply newer_of_distinct; [by apply StronglySorted_merge_sort|].
    rewrite Hperm, <- list_fmap_compose.
    apply NoDup_fmap_2_strong; [|done].
    intros [id1 row1] [id2 row2] H1 H2 Heq. simpl in Heq.
    apply Hsel in H1 as [Hl1 Hs1]. apply Hsel in H2 as [Hl2 Hs2].
    destruct (decide (id1 = id2)) as [->|Hne]; [congruence|].
    by destruct (Hdist id1 id2 row1 row2). }
  set (rows := if decide (0 < limit) then take (Z.to_nat limit) sorted
               else sorted).
  assert (Hsub : ∀ row, row ∈ rows → row ∈ sorted).
  { intros row. unfold rows. case_decide; [|done]. apply subseteq_take. }
  destruct (mapM (λ row, unmarshal (e_data row)) rows) as [results|] eqn:Hm.
  2:{ exfalso. apply eq_None_not_Some in Hm. apply Hm, mapM_is_Some_2.
      apply Forall_forall. intros row Hrow. simpl.
      apply Hsub, Hin in Hrow as (_ & id & Hl). by apply (Hdec id). }
  exists rows, results. split_and!.
  - done.
  - by apply mapM_Some_1.
  - unfold rows. case_decide; [|done].
    rewrite <- (take_drop (Z.to_nat limit) sorted) in Hstrict.
    by apply StronglySorted_app_1_l in Hstrict.
  - intros row Hrow. by apply Hin, Hsub.
  - intros Hlim. unfold rows. rewrite decide_True by done.
    rewrite length_take. split; [lia|].
    destruct (decide (Z.to_nat limit ≤ length sorted)%nat) as [Hle|Hgt];
      [left; lia|right].
    intros id row Hl Hsc. rewrite take_ge by lia. apply Hin. eauto.
  - intros Hlim id row Hl Hsc. unfold rows. rewrite decide_False by lia.
    apply Hin. eauto.
  - intros id row row' Hl Hsc Hout Hrow'. unfold rows in *.
    case_decide; [|exfalso; apply Hout, Hin; eauto].
    rewrite <- (take_drop (Z.to_nat limit) sorted) in Hstrict.
    apply (StronglySorted_app_1_elem_of _ _ _ _ _ Hstrict Hrow').
    assert (Hs : row ∈ sorted) by (apply Hin; eauto).
    rewrite <- (take_drop (Z.to_nat limit) sorted), elem_of_app in Hs.
    by destruct Hs.
Qed.

(** ** The uid column *)

(** A [Put] on a key that has a row keeps the [uid] and [created_at] columns
    of the row, whatever uid the resource carries: only [data], from which
    [Get] reads, and [updated_at] are replaced. *)
Lemma Put_keeps_uid_column now fresh s r s' r' row :
  resources s !! key_of r = Some row →
  Put now fresh s r = (s', r', None) →
  ∃ d, marshal r' = Some d ∧
    resources s' !! key_of r =
      Some {| uid := uid row; data := d; created_at := created_at row;
              updated_at := now |}.
Proof.
  intros Hrow HPut.
  destruct (Put_ok_inv _ _ _ _ _ _ HPut) as (_ & Hr' & d & Hm & ->).
  exists d. split; [done|]. rewrite emit_resources.
  cbn [resources with_resources]. rewrite Hr', stamp_key. unfold upsert.
  by rewrite Hrow, lookup_insert_eq.
Qed.

(** ** Writes and the other keys *)

(** The [resources] table after [Put]: the upsert when it succeeds, the table
    as it was when it fails. *)
Lemma Put_resources now fresh s r :
  resources (Put now fresh s r).1.1 =
    match (Put now fresh s r).2 with
    | None =>
        match marshal (stamp now fresh r) with
        | Some d => upsert (key_of r) (UID (Metadata (stamp now fresh r))) d
                      now (resources s)
        | None => resources s
        end
    | Some _ => resources s
    end.
Proof.
  unfold Put. destruct (marshal (stamp now fresh r)) as [d|]; [|done].
  destruct (db_open s); [|done]. simpl. by rewrite stamp_key.
Qed.

Lemma Get_Put_ne now fresh s r kind namespace name :
  (kind, namespace, name) ≠ key_of r →
  Get kind namespace name (Put now fresh s r).1.1 = Get kind namespace name s.
Proof.
  intros Hne. unfold Get. rewrite Put_db_open, Put_resources.
  destruct (Put now fresh s r).2; [done|].
  destruct (marshal (stamp now fresh r)); [|done].
  by rewrite upsert_lookup_ne.
Qed.

Lemma Delete_db_open kind namespace name s :
  db_open (Delete kind namespace name s).1 = db_open s.
Proof.
  unfold Delete. destruct (getUnlocked _ _ _ _); [|done].
  by destruct (db_open s) eqn:?.
Qed.

Lemma Get_Delete_ne kind namespace name kind' namespace' name' s :
  (kind, namespace, name) ≠ (kind', namespace', name') →
  Get kind namespace name (Delete kind' namespace' name' s).1 =
    Get kind namespace name s.
Proof.
  intros Hne. unfold Get. rewrite Delete_db_open. unfold Delete.
  destruct (getUnlocked _ _ _ _); [|done].
  destruct (db_open s); [|done]. simpl. by rewrite lookup_delete_ne.
Qed.

(** X1.  A [Put] or a [Delete] on one key, whatever its outcome, leaves what
    [Get] returns for every other key as it was. *)
Theorem writes_leave_other_keys now fresh s r kind namespace name
    kind' namespace' name' :
  (kind, namespace, name) ≠ key_of r →
  (kind, namespace, name) ≠ (kind', namespace', name') →
  Get kind namespace name (Put now fresh s r).1.1 = Get kind namespace name s ∧
  Get kind namespace name (Delete kind' namespace' name' s).1 =
    Get kind namespace name s.
Proof.
  intros Hr Hk. split; [by apply Get_Put_ne|by apply Get_Delete_ne].
Qed.

(** X2.  A successful [Put] on a key that has no row, followed by a [Delete]
    of that key: the [Delete] succeeds and the three tables are what they
    were before the [Put]. *)
Theorem put_then_delete_restores now fresh s r s1 r1 :
  resources s !! key_of r = None →
  Put now fresh s r = (s1, r1, None) →
  round_trips r1 →
  ∃ s2, Delete (Kind r) (Namespace (Metadata r)) (Name (Metadata r)) s1 =
          (s2, None) ∧
        same_tables s2 s.
Proof.
  intros Hn HPut Hrt.
  pose proof (Get_Put _ _ _ _ _ _ HPut Hrt) as HG.
  rewrite <- getUnlocked_Get in HG.
  eexists. split; [by apply Delete_succeeds|].
  destruct (Put_ok_inv _ _ _ _ _ _ HPut) as (_ & Hr1 & d & _ & ->).
  unfold same_tables. simpl. split_and!; [|done..].
  change (Kind r, Namespace (Metadata r), Name (Metadata r)) with (key_of r).
  rewrite Hr1, stamp_key. unfold upsert. rewrite Hn.
  by rewrite delete_insert_eq, delete_id.
Qed.

(** ** List *)

Lemma selected_resources kind (namespace : string)
    (t : gmap Key ResourceRow) :
  NoDup (select_resources kind namespace t) ∧
  ∀ k row, (k, row) ∈ select_resources kind namespace t ↔
           t !! k = Some row ∧ listed kind namespace k.
Proof.
  unfold select_resources, listed. case_decide as Hns.
  - split; [by apply NoDup_filter, NoDup_filter, NoDup_map_to_list|].
    intros k row. rewrite !list_elem_of_filter, elem_of_map_to_list. simpl.
    split.
    + intros (Hn & Hk & Hl). split_and!; [done..|by right].
    + intros (Hl & Hk & [He|Hn]); [done|by split_and!].
  - split; [by apply NoDup_filter, NoDup_map_to_list|].
    intros k row. rewrite list_elem_of_filter, elem_of_map_to_list. simpl.
    split.
    + intros (Hk & Hl). split_and!; [done..|by left].
    + intros (Hl & Hk & _). by split.
Qed.

Lemma Forall2_keys (sel : list (Key * ResourceRow)) (results : list Res) :
  Forall2 (λ p res, unmarshal (data p.2) = Some res ∧ key_of res = p.1)
    sel results →
  key_of <$> results = sel.*1.
Proof.
  induction 1 as [|p res sel results [_ Hk] _ IH]; [done|].
  rewrite !fmap_cons, Hk. by f_equal.
Qed.

(** X3.  On an open store whose rows hold readable data under their own key,
    [List] returns, each exactly once, the resources that [Get] returns for
    the keys of the kind asked for, in the namespace asked for or, when that
    is empty, in every namespace. *)
Theorem list_one_per_key kind namespace s :
  db_open s = true →
  keyed s →
  ∃ results,
    List kind namespace s = Ok results ∧
    NoDup (key_of <$> results) ∧
    ∀ res, res ∈ results ↔
      listed kind namespace (key_of res) ∧
      Get (Kind res) (Namespace (Metadata res)) (Name (Metadata res)) s =
        Ok res.
Proof.
  intros Ho Hkeyed. unfold List. rewrite Ho.
  destruct (selected_resources kind namespace (resources s)) as [Hnd Hsel].
  set (sel := select_resources kind namespace (resources s)) in *.
  assert (Hall : Forall (λ p, ∃ res, unmarshal (data p.2) = Some res ∧
                                     key_of res = p.1) sel).
  { apply Forall_forall. intros [k row] Hp. apply Hsel in Hp as [Hl _].
    by apply Hkeyed. }
  destruct (mapM (λ p, unmarshal (data p.2)) sel) as [results|] eqn:Hm.
  2:{ exfalso. apply eq_None_not_Some in Hm. apply Hm, mapM_is_Some_2.
      eapply Forall_impl; [exact Hall|]. intros p (res & Hu & _). by exists res. }
  apply mapM_Some_1 in Hm.
  assert (Hboth : Forall2 (λ p res, unmarshal (data p.2) = Some res ∧
                                    key_of res = p.1) sel results).
  { clear Hnd Hsel. induction Hm as [|p res sel' results' Hu _ IH];
      [constructor|].
    apply Forall_cons in Hall as [(res' & Hu' & Hk') Hall].
    constructor; [|by apply IH]. split; [done|]. congruence. }
  exists results. split_and!; [done|..].
  - rewrite (Forall2_keys _ _ Hboth).
    apply NoDup_fmap_2_strong; [|done].
    intros [k1 row1] [k2 row2] H1 H2 Heq. simpl in Heq. subst k2.
    apply Hsel in H1 as [H1 _]. apply Hsel in H2 as [H2 _]. congruence.
  - intros res. unfold Get. rewrite Ho. split.
    + intros Hres. apply list_elem_of_lookup in Hres as [i Hi].
      destruct (Forall2_lookup_r _ _ _ _ _ Hboth Hi)
        as ([k row] & Hp & Hu & Hk).
      apply list_elem_of_lookup_2, Hsel in Hp as [Hl Hlisted].
      simpl in Hu, Hk. subst k. split; [done|].
      change (Kind res, Namespace (Metadata res), Name (Metadata res))
        with (key_of res).
      by rewrite Hl, Hu.
    + intros [Hlisted HG].
      change (Kind res, Namespace (Metadata res), Name (Metadata res))
        with (key_of res) in HG.
      destruct (resources s !! key_of res) as [row|] eqn:Hl; [|done].
      destruct (unmarshal (data row)) as [res'|] eqn:Hu; [|done].
      injection HG as ->.
      assert (Hp : (key_of res, row) ∈ sel) by by apply Hsel.
      apply list_elem_of_lookup in Hp as [i Hi].
      destruct (Forall2_lookup_l _ _ _ _ _ Hboth Hi) as (res' & Hr & Hu' & _).
      simpl in Hu'. rewrite Hu in Hu'. injection Hu' as <-.
      by apply list_elem_of_lookup_2 in Hr.
Qed.

(** A successful [Put] of a resource json reads back keeps the rows readable
    under their own key. *)
Lemma Put_keyed now fresh s r s' r' :
  keyed s → Put now fresh s r = (s', r', None) → round_trips r' → keyed s'.
Proof.
  intros Hkeyed HPut Hrt k row.
  destruct (Put_ok_inv _ _ _ _ _ _ HPut) as (_ & Hr' & d & Hm & ->).
  rewrite emit_resources. cbn [resources with_resources].
  destruct (decide (key_of r' = k)) as [<-|Hne].
  - destruct (upsert_lookup (key_of r') (UID (Metadata r')) d now
                (resources s)) as (row' & -> & Hd).
    intros [= <-]. exists r'. rewrite Hd. split; [by apply Hrt|done].
  - rewrite upsert_lookup_ne by done. apply Hkeyed.
Qed.

(** ** Watchers of other kinds, and watchers over time *)

Lemma chan_of_Put_ne now fresh s r kind i :
  kind ≠ Kind r → chan_of kind i (Put now fresh s r).1.1 = chan_of kind i s.
Proof.
  intros Hne. unfold Put. destruct (marshal _); [|done].
  destruct (db_open s); [|done]. simpl. by rewrite chan_of_emit_ne.
Qed.

Lemma chan_of_Delete_ne kind' namespace name s kind i :
  kind ≠ kind' →
  chan_of kind i (Delete kind' namespace name s).1 = chan_of kind i s.
Proof.
  intros Hne. unfold Delete. destruct (getUnlocked _ _ _ _); [|done].
  destruct (db_open s); [|done]. simpl. by rewrite chan_of_emit_ne.
Qed.

(** X4.  A [Put] or a [Delete] of a resource of one kind, whatever its
    outcome, leaves the queue of every watcher of another kind as it was. *)
Theorem other_kinds_hear_nothing now fresh s r kind' namespace name kind i :
  kind ≠ Kind r →
  kind ≠ kind' →
  chan_of kind i (Put now fresh s r).1.1 = chan_of kind i s ∧
  chan_of kind i (Delete kind' namespace name s).1 = chan_of kind i s.
Proof.
  intros Hr Hk. split; [by apply chan_of_Put_ne|by apply chan_of_Delete_ne].
Qed.

Lemma Put_Some_inv now fresh s r e :
  (Put now fresh s r).2 = Some e →
  Put now fresh s r = (s, stamp now fresh r, Some e).
Proof.
  unfold Put. destruct (marshal _); [|by intros [= <-]].
  destruct (db_open s); [done|by intros [= <-]].
Qed.

(** X5.  A [Put] that fails has written nothing and sent no event, but it has
    already stamped the caller's resource: a resource that came without uid
    leaves the failed call with the generated one.  When that resource is put
    again and the call succeeds, it keeps that uid and the event is UPDATED,
    not CREATED, whether or not the key has a row. *)
Theorem retry_after_failed_put now fresh s r s1 r1 e now2 fresh2 s2 s3 r3 i
    (ch : Chan Any) :
  UID (Metadata r) = EmptyString →
  fresh ≠ EmptyString →
  Put now fresh s r = (s1, r1, Some e) →
  Put now2 fresh2 s2 r1 = (s3, r3, None) →
  chan_of (Kind r) i s2 = Some ch →
  (length (buf ch) < cap ch)%nat →
  s1 = s ∧
  UID (Metadata r1) = fresh ∧
  UID (Metadata r3) = fresh ∧
  ∃ ev, chan_of (Kind r) i s3 =
          Some {| cap := cap ch; buf := buf ch ++ [ev] |} ∧
        Type_ ev = EventUpdated.
Proof.
  intros Hu Hf HP1 HP2 Hch Hroom.
  assert (He : (Put now fresh s r).2 = Some e) by by rewrite HP1.
  rewrite (Put_Some_inv _ _ _ _ _ He) in HP1. injection HP1 as <- <-.
  assert (Hu1 : UID (Metadata (stamp now fresh r)) = fresh).
  { rewrite stamp_UID. by rewrite decide_True. }
  split_and!; [done..| |].
  - destruct (Put_ok_inv _ _ _ _ _ _ HP2) as (_ & -> & _).
    rewrite stamp_UID, Hu1. by rewrite decide_False.
  - rewrite <- (stamp_Kind now fresh r) in Hch |- *.
    destruct (put_event_appended _ _ _ _ _ _ i ch HP2 Hch Hroom)
      as (ev & Hev & _ & _ & Hold).
    exists ev. split; [done|]. apply Hold. by rewrite Hu1.
Qed.

(** X6.  [UpdateStatus] on a stored resource that carries a uid and the key
    of its row: it succeeds, and [Get] then returns the resource with kind,
    spec and metadata as before except [updatedAt], which is the time of the
    inner [Put]; the status is the one given, with [lastUpdated] the time of
    the inner [Put] (not the time [UpdateStatus] stamped) and with state and
    health replaced by Registered and Unknown when the state given is empty.
    On a key without row it fails with NotFound and changes nothing. *)
Theorem update_status_then_get now1 now2 fresh kind namespace name name'
    (status : ResourceStatus) s res :
  Get kind namespace name s = Ok res →
  key_of res = (kind, namespace, name) →
  UID (Metadata res) ≠ EmptyString →
  is_Some (marshal (status_update now1 now2 fresh status res)) →
  round_trips (status_update now1 now2 fresh status res) →
  db_open s = true →
  resources s !! (kind, namespace, name') = None →
  (∃ s' got,
     UpdateStatus now1 now2 fresh kind namespace name status s = (s', None) ∧
     Get kind namespace name s' = Ok got ∧
     Kind got = Kind res ∧
     Spec got = Spec res ∧
     Metadata got = set_UpdatedAt now2 (Metadata res) ∧
     LastUpdated (Status got) = now2 ∧
     (State status ≠ EmptyString →
        State (Status got) = State status ∧
        Health (Status got) = Health status) ∧
     (State status = EmptyString →
        State (Status got) = "Registered"%string ∧
        Health (Status got) = "Unknown"%string)) ∧
  UpdateStatus now1 now2 fresh kind namespace name' status s =
    (s, Some NotFound).
Proof.
  intros HG Hkey Hu Hm Hrt Ho Hn. split.
  - unfold UpdateStatus. rewrite HG.
    pose proof (Put_succeeds now2 fresh s
                  (set_Status (set_LastUpdated now1 status) res) Ho Hm) as HP.
    rewrite HP. eexists _, _. split; [done|].
    pose proof (Get_Put _ _ _ _ _ _ HP Hrt) as HG'. simpl in HG'.
    injection Hkey as <- <- <-. split; [exact HG'|].
    unfold stamp. simpl. rewrite decide_False by done.
    split_and!; try done; intros Hc; by repeat case_decide.
  - unfold UpdateStatus, Get. by rewrite Ho, Hn.
Qed.

Lemma call_keeps_chan (c : Call) s kind i :
  is_Some (chan_of kind i s) → is_Some (chan_of kind i (call c s)).
Proof.
  intros [ch Hch].
  assert (Hemit : ∀ (kd : ResourceKind) ev s0, watchers s0 = watchers s →
            is_Some (chan_of kind i (emit kd ev s0))).
  { intros kd ev s0 Hw. destruct (decide (kd = kind)) as [->|Hne].
    - rewrite chan_of_emit. unfold chan_of in *. rewrite Hw, Hch. by eexists.
    - rewrite chan_of_emit_ne by done. unfold chan_of in *.
      rewrite Hw, Hch. by eexists. }
  assert (HPut : ∀ now fresh r,
            is_Some (chan_of kind i (Put now fresh s r).1.1)).
  { intros now fresh r. unfold Put. destruct (marshal _); [|by eexists].
    destruct (db_open s); [|by eexists]. by apply Hemit. }
  destruct c as [now fresh r|kd ns n|now1 now2 fresh kd ns n st|now fresh e
                |now e|id l|now id d|kd|kd j|]; simpl; try by eexists.
  - apply HPut.
  - unfold Delete. destruct (getUnlocked _ _ _ _); [|by eexists].
    destruct (db_open s); [|by eexists]. by apply Hemit.
  - unfold UpdateStatus. destruct (Get _ _ _ _) as [res|]; [|by eexists].
    specialize (HPut now2 fresh (set_Status (set_LastUpdated now1 st) res)).
    by destruct (Put _ _ _ _) as [[s' r'] e].
  - unfold CreateExecution. destruct (marshal _); [|by eexists].
    destruct (db_open s); [|by eexists].
    destruct (insert_execution _ _ _); by eexists.
  - unfold UpdateExecution. destruct (marshal _); [|by eexists].
    destruct (db_open s); by eexists.
  - unfold AppendExecutionLog. destruct (db_open s); by eexists.
  - unfold SaveCheckpoint. destruct (db_open s); by eexists.
  - exists ch. by apply Watch_keeps.
  - unfold receive.
    destruct (chan_of kd j s ≫= try_recv) as [[ev ch']|]; [|by eexists].
    unfold chan_of in *. simpl. rewrite lookup_alter.
    case_decide as Hk; [|by eexists]. subst kd.
    destruct (watchers s !! kind) as [chans|]; simpl in *; [|done].
    destruct (decide (j = i)) as [->|Hne].
    + rewrite list_lookup_insert_eq; [by eexists|].
      by apply lookup_lt_Some in Hch.
    + rewrite list_lookup_insert_ne by done. by eexists.
Qed.

(** X7.  No call removes a watcher: a channel that [Watch] has registered is
    still registered, under the same kind and position, after any sequence of
    calls. *)
Theorem watcher_stays_registered (cs : list Call) s kind i :
  is_Some (chan_of kind i s) → is_Some (chan_of kind i (calls cs s)).
Proof.
  revert s. induction cs as [|c cs IH]; intros s Hch; [done|].
  simpl. apply IH. by apply call_keeps_chan.
Qed.

(** X8.  After any sequence of calls on a new store, every watcher's channel
    has capacity 100 and holds at most 100 events. *)
Theorem watcher_queue_bounded (cs : list Call) kind i (ch : Chan Any) :
  chan_of kind i (calls cs NewSQLiteStore) = Some ch →
  cap ch = 100%nat ∧ (length (buf ch) ≤ 100)%nat.
Proof.
  intros Hch. pose proof (queues_stay_bounded cs) as Hb.
  unfold chan_of in Hch.
  destruct (watchers (calls cs NewSQLiteStore) !! kind) as [chans|] eqn:Hw;
    simpl in Hch; [|done].
  specialize (Hb kind chans Hw). rewrite Forall_lookup in Hb.
  destruct (Hb i ch Hch) as [Hcap Hlen]. split; [done|lia].
Qed.

(** ** The execution ledger *)

(** X9.  After a successful [CreateExecution] of a record json reads back,
    [GetExecution] on its id returns the record as the call left it: the id
    is the one given or, when that was empty, the generated one, and both
    timestamps are the time of the call.  What [GetExecution] returns for
    every other id is as before. *)
Theorem create_then_get now fresh s (exec : Execution) s' exec' :
  CreateExecution now fresh s exec = (s', exec', None) →
  round_trips exec' →
  GetExecution (Exec.ID exec') s' = Ok exec' ∧
  Exec.ID exec' =
    (if decide (Exec.ID exec = EmptyString) then fresh else Exec.ID exec) ∧
  Exec.CreatedAt exec' = now ∧
  Exec.UpdatedAt exec' = now ∧
  ∀ id, id ≠ Exec.ID exec' → GetExecution id s' = GetExecution id s.
Proof.
  intros HC Hrt. revert HC. unfold CreateExecution, insert_execution.
  set (e1 := Exec.set_UpdatedAt now (Exec.set_CreatedAt now
               (if decide (Exec.ID exec = EmptyString)
                then Exec.set_ID fresh exec else exec))).
  destruct (marshal e1) as [d|] eqn:Hm; [|by intros [=]].
  destruct (db_open s) eqn:Ho; [|by intros [=]].
  destruct (executions s !! Exec.ID e1) eqn:Hl; [by intros [=]|].
  intros [= <- <-].
  unfold GetExecution. cbn [db_open executions with_executions]. rewrite Ho.
  split_and!.
  - rewrite lookup_insert_eq. cbn [e_data]. by rewrite (Hrt _ Hm).
  - unfold e1. simpl. by case_decide.
  - done.
  - done.
  - intros id Hne. by rewrite lookup_insert_ne.
Qed.

(** X10.  [CreateExecution] for an id that already has a row (the id given
    or, when that is empty, the generated one) returns an error and leaves
    the store as it was: it never overwrites an execution. *)
Theorem create_existing_id_fails now fresh s (exec : Execution) :
  is_Some (executions s !!
             (if decide (Exec.ID exec = EmptyString) then fresh
              else Exec.ID exec)) →
  (CreateExecution now fresh s exec).1.1 = s ∧
  (CreateExecution now fresh s exec).2 ≠ None.
Proof.
  intros [row Hrow]. unfold CreateExecution, insert_execution.
  destruct (marshal _); [|done]. destruct (db_open s); [|done].
  assert (Hid : Exec.ID
            (Exec.set_UpdatedAt now (Exec.set_CreatedAt now
               (if decide (Exec.ID exec = EmptyString)
                then Exec.set_ID fresh exec else exec))) =
            (if decide (Exec.ID exec = EmptyString) then fresh
             else Exec.ID exec)) by (simpl; by case_decide).
  by rewrite Hid, Hrow.
Qed.

(** X11.  A successful [UpdateExecution] of a record whose id has a row: the
    record [GetExecution] then returns is the one given, stamped with the
    time of the call, and the row has the state given; the namespace, agent
    name, pipeline name, creation time and checkpoint columns keep the values
    of the row, whatever the record says, so [LoadCheckpoint] returns what it
    returned before. *)
Theorem update_existing_execution now s (exec : Execution) s' exec' row :
  executions s !! Exec.ID exec = Some row →
  UpdateExecution now s exec = (s', exec', None) →
  round_trips exec' →
  GetExecution (Exec.ID exec) s' = Ok exec' ∧
  exec' = Exec.set_UpdatedAt now exec ∧
  LoadCheckpoint (Exec.ID exec) s' = LoadCheckpoint (Exec.ID exec) s ∧
  ∃ row', executions s' !! Exec.ID exec = Some row' ∧
          e_state row' = Exec.State exec ∧
          e_updated_at row' = now ∧
          e_namespace row' = e_namespace row ∧
          e_agent_name row' = e_agent_name row ∧
          e_pipeline_name row' = e_pipeline_name row ∧
          e_created_at row' = e_created_at row ∧
          e_checkpoint row' = e_checkpoint row.
Proof.
  intros Hrow. unfold UpdateExecution.
  destruct (marshal (Exec.set_UpdatedAt now exec)) as [d|] eqn:Hm;
    [|by intros [=]].
  destruct (db_open s) eqn:Ho; [|by intros [=]].
  intros [= <- <-] Hrt.
  unfold GetExecution, LoadCheckpoint, update_execution.
  cbn [db_open executions with_executions]. rewrite Ho.
  change (Exec.ID (Exec.set_UpdatedAt now exec)) with (Exec.ID exec).
  rewrite lookup_alter_eq, Hrow. simpl.
  split; [by rewrite (Hrt _ Hm)|]. split; [done|]. split; [done|].
  eexists. split; [done|]. by split_and!.
Qed.

Lemma update_checkpoint_absent id (d : GoBytes) now
    (t : gmap string ExecutionRow) :
  t !! id = None → update_checkpoint id d now t = t.
Proof.
  intros Hn. unfold update_checkpoint. apply map_eq. intros j.
  rewrite lookup_alter. case_decide; [|done]. subst j. by rewrite Hn.
Qed.

(** X12.  [SaveCheckpoint], whatever its outcome, leaves what [GetExecution]
    returns for every id as it was: the checkpoint is kept beside the record,
    not in it. *)
Theorem checkpoint_leaves_records now id (d : GoBytes) s id' :
  GetExecution id' (SaveCheckpoint now id d s).1 = GetExecution id' s.
Proof.
  unfold SaveCheckpoint, GetExecution.
  destruct (db_open s) eqn:Ho; [|simpl; by rewrite Ho].
  cbn [db_open executions with_executions fst]. rewrite Ho.
  unfold update_checkpoint. rewrite lookup_alter.
  case_decide as Hid; [|done]. subst id'.
  by destruct (executions s !! id).
Qed.

(** X13.  [SaveCheckpoint] for an id without row, on an open store, returns
    no error and stores nothing: the store is as it was and the
    [LoadCheckpoint] that follows returns the nil slice. *)
Theorem save_checkpoint_missing_row now id (d : GoBytes) s :
  executions s !! id = None →
  db_open s = true →
  SaveCheckpoint now id d s = (s, None) ∧
  LoadCheckpoint id (SaveCheckpoint now id d s).1 = (None, None).
Proof.
  intros Hn Ho.
  assert (HS : SaveCheckpoint now id d s = (s, None)).
  { unfold SaveCheckpoint. rewrite Ho.
    by rewrite update_checkpoint_absent, with_executions_id. }
  split; [done|]. rewrite HS. unfold LoadCheckpoint. simpl.
  by rewrite Ho, Hn.
Qed.

(** ** Execution logs *)



(** ** A closed database *)

Lemma call_closed (c : Call) s :
  db_open s = false →
  db_open (call c s) = false ∧ same_tables (call c s) s.
Proof.
  intros Ho. unfold same_tables.
  destruct c as [now fresh r|kd ns n|now1 now2 fresh kd ns n st|now fresh e
                |now e|id l|now id d|kd|kd j|]; simpl.
  - unfold Put. destruct (marshal _); by rewrite ?Ho.
  - unfold Delete, getUnlocked. by rewrite Ho.
  - unfold UpdateStatus, Get. by rewrite Ho.
  - unfold CreateExecution. destruct (marshal _); by rewrite ?Ho.
  - unfold UpdateExecution. destruct (marshal _); by rewrite ?Ho.
  - unfold AppendExecutionLog. by rewrite Ho.
  - unfold SaveCheckpoint. by rewrite Ho.
  - done.
  - unfold receive. by destruct (_ ≫= _) as [[ev ch]|].
  - done.
Qed.

(** X15.  Once the database is closed, no sequence of calls changes any row
    of the three tables, the database stays closed, and the reads fail with a
    storage error. *)
Theorem closed_store_frozen (cs : list Call) s kind namespace name id :
  db_open s = false →
  db_open (calls cs s) = false ∧
  same_tables (calls cs s) s ∧
  Get kind namespace name (calls cs s) = Err StorageFailure ∧
  List kind namespace (calls cs s) = Err StorageFailure ∧
  GetExecution id (calls cs s) = Err StorageFailure ∧
  ListExecutions namespace 0 (calls cs s) = Err StorageFailure ∧
  GetExecutionLogs id (calls cs s) = Err StorageFailure ∧
  LoadCheckpoint id (calls cs s) = (None, Some StorageFailure).
Proof.
  intros Ho.
  assert (H : db_open (calls cs s) = false ∧ same_tables (calls cs s) s).
  { revert s Ho. induction cs as [|c cs IH]; intros s Ho; [done|].
    simpl. destruct (call_closed c s Ho) as (Ho' & Hr & He & Hl).
    destruct (IH _ Ho') as (Ho'' & Hr' & He' & Hl').
    split; [done|]. unfold same_tables. split_and!; congruence. }
  destruct H as [Ho' Hsame]. split_and!; [done..| | | | | |];
    unfold Get, List, GetExecution, ListExecutions, GetExecutionLogs,
      LoadCheckpoint; by rewrite Ho'.
Qed.

Lemma NewSQLiteStore_keyed : keyed (NewSQLiteStore (Any := Any)).
Proof. intros k row Hl. simpl in Hl. by rewrite lookup_empty in Hl. Qed.

Lemma put_all_keyed (ps : list (Time * string * Res)) s :
  keyed s →
  Forall (λ p, round_trips (stamp p.1.1 p.1.2 p.2)) ps →
  Forall (eq None) (put_all ps s).2 →
  keyed (put_all ps s).1.
Proof.
  intros Hkeyed Hps. revert s Hkeyed.
  induction Hps as [|[[now fresh] r] ps Hrt _ IH]; intros s Hkeyed Hok;
    [done|].
  rewrite put_all_cons in Hok |- *. simpl in *.
  apply Forall_cons in Hok as [Hok1 Hok].
  destruct (Put now fresh s r) as [[s1 r1] e] eqn:HPut. simpl in *. subst e.
  apply IH; [|done]. apply (Put_keyed now fresh s r s1 r1); [done..|].
  by destruct (Put_ok_inv _ _ _ _ _ _ HPut) as (_ & -> & _).
Qed.

(** X16.  The calls of the execution ledger, whatever their outcome, send no
    event and touch no resource: the watchers' queues and the [resources]
    table are as before. *)
Theorem ledger_sends_no_event now fresh s (exec : Execution) id
    (entry : ExecutionLog) (d : GoBytes) :
  (watchers (CreateExecution now fresh s exec).1.1 = watchers s ∧
   resources (CreateExecution now fresh s exec).1.1 = resources s) ∧
  (watchers (UpdateExecution now s exec).1.1 = watchers s ∧
   resources (UpdateExecution now s exec).1.1 = resources s) ∧
  (watchers (AppendExecutionLog id entry s).1 = watchers s ∧
   resources (AppendExecutionLog id entry s).1 = resources s) ∧
  (watchers (SaveCheckpoint now id d s).1 = watchers s ∧
   resources (SaveCheckpoint now id d s).1 = resources s).
Proof.
  split_and!.
  - unfold CreateExecution. destruct (marshal _); [|done].
    destruct (db_open s); [|done]. by destruct (insert_execution _ _ _).
  - unfold CreateExecution. destruct (marshal _); [|done].
    destruct (db_open s); [|done]. by destruct (insert_execution _ _ _).
  - unfold UpdateExecution. destruct (marshal _); [|done].
    by destruct (db_open s).
  - unfold UpdateExecution. destruct (marshal _); [|done].
    by destruct (db_open s).
  - unfold AppendExecutionLog. by destruct (db_open s).
  - unfold AppendExecutionLog. by destruct (db_open s).
  - unfold SaveCheckpoint. by destruct (db_open s).
  - unfold SaveCheckpoint. by destruct (db_open s).
Qed.

End Facts.

(** * The properties on the concrete instance *)

Import Sample.

Lemma sample_round_trips (r : GenericResource string) : round_trips r.
Proof. intros d [= <-]. reflexivity. Qed.

Lemma sample_decodable (s : Sample.Store) : decodable s.
Proof. intros id row _. by eexists. Qed.

(** Distinct creation times over the whole table, a condition that can be
    computed, give [distinct_times] for every namespace argument. *)
Lemma distinct_times_of_NoDup namespace (s : Sample.Store) :
  NoDup (e_created_at <$> (map_to_list (executions s)).*2) →
  distinct_times namespace s.
Proof.
  intros Hnd id1 id2 row1 row2 Hl1 Hl2 _ _ Hne Heq.
  apply elem_of_map_to_list, list_elem_of_lookup in Hl1 as [i Hi].
  apply elem_of_map_to_list, list_elem_of_lookup in Hl2 as [j Hj].
  assert (i = j) as ->.
  { apply (NoDup_lookup _ i j (e_created_at row1) Hnd).
    - by rewrite !list_lookup_fmap, Hi.
    - by rewrite !list_lookup_fmap, Hj, Heq. }
  congruence.
Qed.

(** ** Evaluations *)

Example get_after_first_put :
  Get "Agent" "default" "summarizer" created =
    Ok {| Kind := "Agent";
          Metadata := {| Namespace := "default"; Name := "summarizer";
                         UID := "uid-1"; CreatedAt := 5; UpdatedAt := 5 |};
          Spec := "model: small";
          Status := status "Registered" "Unknown" 5 |}.
Proof. reflexivity. Qed.

Example list_team_limit_1 :
  ListExecutions "team" 1 ledger =
    Ok [Exec.set_UpdatedAt 20 (Exec.set_CreatedAt 20 (execution "b" "team"))].
Proof. reflexivity. Qed.

Example list_team_unbounded :
  ids_of (ListExecutions "team" 0 ledger) = Some ["b"; "a"]%string ∧
  ids_of (ListExecutions "team" (-1) ledger) = Some ["b"; "a"]%string ∧
  ids_of (ListExecutions "team" 5 ledger) = Some ["b"; "a"]%string.
Proof. by split_and!. Qed.

(** ** Where the code departs from the statements of the specification *)

(** C1 as stated fails.  After the first [Put] assigned [uid-1], a second
    successful [Put] on the same key, given a resource that carries another
    uid or none, makes [Get] return that other uid or a newly generated one. *)
Lemma uid_replaced_by_later_put :
  ∃ s2 r2 s3 r3,
    Put 5 "uid-1" NewSQLiteStore (agent EmptyString unset) =
      (created, created_agent, None) ∧
    uid_at agent_key created = Some "uid-1"%string ∧
    Put 7 "uid-2" created (agent "caller-uid" unset) = (s2, r2, None) ∧
    key_of r2 = key_of created_agent ∧
    uid_at agent_key s2 = Some "caller-uid"%string ∧
    Put 7 "uid-2" created (agent EmptyString unset) = (s3, r3, None) ∧
    key_of r3 = key_of created_agent ∧
    uid_at agent_key s3 = Some "uid-2"%string.
Proof. do 4 eexists. split_and!; reflexivity. Qed.

(** C2 as stated fails.  The first write of a key with a resource that
    carries a uid is announced as UPDATED, and a second write of a key with a
    resource without uid is announced as CREATED again; the specification
    gives CREATED for the first and UPDATED for the second. *)
Lemma event_type_follows_uid_not_history :
  (put_all [(5, "uid-1"%string, agent "caller-uid" unset)] watched).2 =
    [None] ∧
  queued_types "Agent"
    (0%nat) (put_all [(5, "uid-1"%string, agent "caller-uid" unset)] watched).1 =
    [EventUpdated] ∧
  spec_event_types [] [agent "caller-uid" unset] = [EventCreated] ∧
  (put_all [(5, "uid-1"%string, agent EmptyString unset);
            (7, "uid-2"%string, agent EmptyString unset)] watched).2 =
    [None; None] ∧
  queued_types "Agent" 0%nat
    (put_all [(5, "uid-1"%string, agent EmptyString unset);
              (7, "uid-2"%string, agent EmptyString unset)] watched).1 =
    [EventCreated; EventCreated] ∧
  spec_event_types [] [agent EmptyString unset; agent EmptyString unset] =
    [EventCreated; EventUpdated].
Proof. split_and!; reflexivity. Qed.

(** C3 as stated fails.  [Get] after [Put] returns a status that differs
    from the status given: [lastUpdated] is the write time, and an empty
    state and health come back as Registered and Unknown. *)
Lemma status_changed_by_put :
  ∃ s1 r1 got s2 r2 got',
    Put 5 "uid-1" NewSQLiteStore (agent EmptyString ready) = (s1, r1, None) ∧
    Get "Agent" "default" "summarizer" s1 = Ok got ∧
    Status got = status "Ready" "Healthy" 5 ∧
    Status got ≠ Status (agent EmptyString ready) ∧
    Put 5 "uid-1" NewSQLiteStore (agent EmptyString unset) = (s2, r2, None) ∧
    Get "Agent" "default" "summarizer" s2 = Ok got' ∧
    Status got' = status "Registered" "Unknown" 5 ∧
    Status got' ≠ Status (agent EmptyString unset).
Proof. do 6 eexists. split_and!; try reflexivity; discriminate. Qed.

(** C6 as stated fails for the namespace with the empty name.  The only
    execution of that namespace is [a]; the listing for it returns [c], of
    namespace [other], under limit 1, and both executions under limit 0. *)
Lemma empty_namespace_lists_all :
  ∃ a c,
    GetExecution "a" mixed = Ok a ∧ Exec.Namespace a = EmptyString ∧
    GetExecution "c" mixed = Ok c ∧ Exec.Namespace c = "other"%string ∧
    ids_of (ListExecutions EmptyString 1 mixed) = Some ["c"%string] ∧
    ids_of (ListExecutions EmptyString 0 mixed) = Some ["c"; "a"]%string.
Proof. do 2 eexists. split_and!; reflexivity. Qed.

(** ** The theorems at concrete inputs *)

(** C1 on the sample agent: created without uid, then written back twice
    carrying [uid-1]. *)
Lemma later_puts_keep_uid :
  UID (Metadata created_agent) =
    (if decide (UID (Metadata (agent EmptyString unset)) = EmptyString)
     then "uid-1"%string
     else UID (Metadata (agent EmptyString unset))) ∧
  uid_at (key_of created_agent) created = Some (UID (Metadata created_agent)) ∧
  uid_at (key_of created_agent)
    (put_all [(7, "uid-2"%string, created_agent);
              (9, "uid-3"%string, agent "uid-1" ready)] created).1 =
    Some (UID (Metadata created_agent)).
Proof.
  apply (uid_kept_when_carried 5 "uid-1" NewSQLiteStore
           (agent EmptyString unset)).
  - reflexivity.
  - apply sample_round_trips.
  - discriminate.
  - repeat constructor; apply sample_round_trips.
  - repeat constructor.
Defined.

(** C2 on the watched store: a [Put] without uid, a [Put] of the resource it
    left, and a [Put] of a new resource without uid. *)
Lemma put_types_by_uid :
  queued_types "Agent" 0
    (put_all [(5, "uid-1"%string, agent EmptyString unset);
              (7, "uid-2"%string, created_agent);
              (9, "uid-3"%string, agent EmptyString ready)] watched).1 =
    (Type_ <$> buf (make_chan (Any := string) 100)) ++
    ((λ p, if decide (UID (Metadata p.2) = EmptyString)
           then EventCreated else EventUpdated) <$>
       [(5, "uid-1"%string, agent EmptyString unset);
        (7, "uid-2"%string, created_agent);
        (9, "uid-3"%string, agent EmptyString ready)]).
Proof.
  apply (put_event_types "Agent" 0 watched (make_chan 100)).
  - reflexivity.
  - simpl. lia.
  - repeat constructor.
  - repeat constructor.
Defined.

Example put_types_by_uid_value :
  queued_types "Agent" 0
    (put_all [(5, "uid-1"%string, agent EmptyString unset);
              (7, "uid-2"%string, created_agent);
              (9, "uid-3"%string, agent EmptyString ready)] watched).1 =
    [EventCreated; EventUpdated; EventCreated].
Proof. reflexivity. Qed.

(** C3 on the sample agent. *)
Lemma first_put_round_trip :
  ∃ got,
    Get (Kind (agent EmptyString ready))
      (Namespace (Metadata (agent EmptyString ready)))
      (Name (Metadata (agent EmptyString ready)))
      (Put 5 "uid-1" NewSQLiteStore (agent EmptyString ready)).1.1 = Ok got ∧
    got = (Put 5 "uid-1" NewSQLiteStore (agent EmptyString ready)).1.2 ∧
    Kind got = Kind (agent EmptyString ready) ∧
    Namespace (Metadata got) = Namespace (Metadata (agent EmptyString ready)) ∧
    Name (Metadata got) = Name (Metadata (agent EmptyString ready)) ∧
    Spec got = Spec (agent EmptyString ready) ∧
    UpdatedAt (Metadata got) = 5 ∧
    LastUpdated (Status got) = 5 ∧
    (UID (Metadata (agent EmptyString ready)) = EmptyString →
       UID (Metadata got) = "uid-1"%string ∧ CreatedAt (Metadata got) = 5) ∧
    (UID (Metadata (agent EmptyString ready)) ≠ EmptyString →
       UID (Metadata got) = UID (Metadata (agent EmptyString ready)) ∧
       CreatedAt (Metadata got) =
         CreatedAt (Metadata (agent EmptyString ready))) ∧
    (State (Status (agent EmptyString ready)) = EmptyString →
       State (Status got) = "Registered"%string ∧
       Health (Status got) = "Unknown"%string) ∧
    (State (Status (agent EmptyString ready)) ≠ EmptyString →
       State (Status got) = State (Status (agent EmptyString ready)) ∧
       Health (Status got) = Health (Status (agent EmptyString ready))).
Proof.
  apply (put_get_round_trip 5 "uid-1" NewSQLiteStore (agent EmptyString ready)).
  - reflexivity.
  - apply sample_round_trips.
Defined.

(** C4 on the sample ledger: two checkpoints saved for execution [a]. *)
Lemma second_checkpoint_wins :
  LoadCheckpoint "a"
    (SaveCheckpoint 40 "a" (Some [x01; x02]) ledger).1 =
    (Some [x01; x02], None) ∧
  LoadCheckpoint "a"
    (SaveCheckpoint 50 "a" (Some [x03])
       (SaveCheckpoint 40 "a" (Some [x01; x02]) ledger).1).1 =
    (Some [x03], None).
Proof.
  apply (checkpoint_save_then_load 40 50 "a" (Some [x01; x02]) (Some [x03])
           ledger).
  - by eexists.
  - reflexivity.
  - reflexivity.
Defined.

(** C5 on a new store: execution [a] is created, then an agent is put, the
    execution is updated and a checkpoint is saved for another id. *)
Lemma never_saved_loads_nil :
  LoadCheckpoint "a" never_saved = (None, None) ∧
  LoadCheckpoint "a" (Close never_saved) = (None, Some StorageFailure) ∧
  LoadCheckpoint "a" (SaveCheckpoint 60 "a" (Some []) never_saved).1 =
    (Some [], None) ∧
  LoadCheckpoint "a" (Close never_saved) ≠ LoadCheckpoint "a" never_saved ∧
  LoadCheckpoint "a" (SaveCheckpoint 60 "a" (Some []) never_saved).1 ≠
    LoadCheckpoint "a" never_saved.
Proof.
  apply (load_checkpoint_never_saved 10 "x" NewSQLiteStore
           (execution "a" "team") started started_execution other_calls 60).
  - reflexivity.
  - repeat constructor. discriminate.
  - reflexivity.
Defined.

(** C7 on the sample agent: deleted after its creation, and deleted where it
    was never stored. *)
Lemma deleted_agent_not_found :
  Get "Agent" "default" "summarizer"
    (Delete "Agent" "default" "summarizer" announced).1 = Err NotFound ∧
  Delete "Agent" "default" "summarizer" watched = (watched, Some NotFound) ∧
  watchers (Delete "Agent" "default" "summarizer" watched).1 =
    watchers watched.
Proof.
  apply (delete_then_get "Agent" "default" "summarizer" announced).
  - reflexivity.
  - reflexivity.
  - reflexivity.
Defined.

(** C9 on the sample ledger: an update for an id that was never created. *)
Lemma update_of_unknown_execution :
  UpdateExecution 70 ledger (execution "nobody" "team") =
    (ledger, Exec.set_UpdatedAt 70 (execution "nobody" "team"), None).
Proof.
  apply (update_execution_missing_row 70 ledger (execution "nobody" "team")).
  - reflexivity.
  - reflexivity.
  - by eexists.
Defined.

(** C10 on the sample ledger: [nobody] has no row, [a] has one without
    checkpoint. *)
Lemma unknown_execution_loads_nil :
  LoadCheckpoint "nobody" ledger = (None, None) ∧
  LoadCheckpoint "nobody" ledger = LoadCheckpoint "a" ledger.
Proof.
  apply (load_checkpoint_missing_execution "nobody" "a" ledger
           (default row_a (executions ledger !! "a"%string))).
  - reflexivity.
  - reflexivity.
  - reflexivity.
  - reflexivity.
Defined.

(** C6 on the sample ledger: namespace [team], limit 1. *)
Lemma newest_of_team :
  ∃ rows results,
    ListExecutions "team" 1 ledger = Ok results ∧
    Forall2 (λ row exec, unmarshal (e_data row) = Some exec) rows results ∧
    StronglySorted newer rows ∧
    (∀ row, row ∈ rows →
       in_scope "team" row ∧ ∃ id, executions ledger !! id = Some row) ∧
    (0 < 1 →
       (length rows ≤ Z.to_nat 1)%nat ∧
       (length rows = Z.to_nat 1 ∨
        ∀ id row, executions ledger !! id = Some row → in_scope "team" row →
                  row ∈ rows)) ∧
    (1 ≤ 0 →
       ∀ id row, executions ledger !! id = Some row → in_scope "team" row →
                 row ∈ rows) ∧
    (∀ id row row',
       executions ledger !! id = Some row → in_scope "team" row →
       row ∉ rows → row' ∈ rows → newer row' row).
Proof.
  apply (list_executions_newest_first "team" 1 ledger).
  - reflexivity.
  - apply sample_decodable.
  - apply distinct_times_of_NoDup. vm_compute.
    repeat (constructor; [rewrite ?elem_of_cons, elem_of_nil; intuition lia|]).
    constructor.
Defined.

(** C8 on the crowded store: the first watcher holds 100 events, the second
    none. *)
Lemma full_watcher_loses_event :
  chan_of "Agent" (Watch "Agent" crowded).2 (Watch "Agent" crowded).1 =
    Some {| cap := 100; buf := [] |} ∧
  chan_of "Agent" 0 (emit "Agent" sample_event crowded) = Some full_chan ∧
  chan_of "Agent" 1 (emit "Agent" sample_event crowded) =
    Some {| cap := 100; buf := [sample_event] |} ∧
  (∀ now fresh r,
     Kind r = "Agent"%string → db_open crowded = true →
     is_Some (marshal (stamp now fresh r)) →
     ∃ s' e, Put now fresh crowded r = (s', stamp now fresh r, None) ∧
       chan_of "Agent" 0 s' = Some full_chan ∧
       chan_of "Agent" 1 s' = Some {| cap := 100; buf := [e] |} ∧
       Resource e = stamp now fresh r) ∧
  (∀ namespace name res,
     getUnlocked "Agent" namespace name crowded = Ok res →
     ∃ s', Delete "Agent" namespace name crowded = (s', None) ∧
       chan_of "Agent" 0 s' = Some full_chan ∧
       chan_of "Agent" 1 s' =
         Some {| cap := 100;
                 buf := [{| Type_ := EventDeleted; Resource := res |}] |}).
Proof.
  apply (full_queue_drops_event "Agent" sample_event crowded 0 1 full_chan
           (make_chan 100)).
  - reflexivity.
  - apply Nat.leb_le. reflexivity.
  - reflexivity.
  - apply Nat.ltb_lt. reflexivity.
Defined.

Example crowded_queue_is_full : length (buf full_chan) = 100%nat.
Proof. reflexivity. Qed.

(** Saving the nil slice stores NULL: the load that follows returns what it
    returns for an execution that was never checkpointed. *)
Example nil_checkpoint_loads_as_nil :
  LoadCheckpoint "a" (SaveCheckpoint 40 "a" None ledger).1 = (None, None) ∧
  LoadCheckpoint "a" (SaveCheckpoint 40 "a" (Some []) ledger).1 =
    (Some [], None).
Proof. by split. Qed.

(** After the second [Put] of the sample agent with a uid of the caller's,
    the row still has the uid column of the first [Put] while its data, and
    so [Get], has the caller's. *)
Example uid_column_and_data_differ :
  (uid <$> resources (Put 7 "uid-2" created (agent "caller-uid" unset)).1.1
             !! agent_key) = Some "uid-1"%string ∧
  uid_at agent_key (Put 7 "uid-2" created (agent "caller-uid" unset)).1.1 =
    Some "caller-uid"%string.
Proof. by split. Qed.

(** ** Further properties at concrete inputs *)

(** X1 on the store that holds the agent: a write and a delete of the
    pipeline. *)
Lemma agent_untouched_by_pipeline :
  Get "Agent" "default" "summarizer" (Put 9 "uid-9" created pipeline).1.1 =
    Get "Agent" "default" "summarizer" created ∧
  Get "Agent" "default" "summarizer"
    (Delete "Pipeline" "default" "nightly" created).1 =
    Get "Agent" "default" "summarizer" created.
Proof.
  apply (writes_leave_other_keys 9 "uid-9" created pipeline).
  - discriminate.
  - discriminate.
Defined.

(** X2 on the new store: the agent is put and deleted. *)
Lemma agent_put_and_deleted :
  ∃ s2, Delete (Kind (agent EmptyString unset))
          (Namespace (Metadata (agent EmptyString unset)))
          (Name (Metadata (agent EmptyString unset))) created = (s2, None) ∧
        same_tables s2 NewSQLiteStore.
Proof.
  apply (put_then_delete_restores 5 "uid-1" NewSQLiteStore
           (agent EmptyString unset) created created_agent).
  - reflexivity.
  - reflexivity.
  - apply sample_round_trips.
Defined.

(** X3 on the catalog: the agents of every namespace. *)
Lemma agents_of_catalog :
  ∃ results,
    List "Agent" EmptyString catalog = Ok results ∧
    NoDup (key_of <$> results) ∧
    ∀ res, res ∈ results ↔
      listed "Agent" EmptyString (key_of res) ∧
      Get (Kind res) (Namespace (Metadata res)) (Name (Metadata res)) catalog =
        Ok res.
Proof.
  apply (list_one_per_key "Agent" EmptyString catalog).
  - reflexivity.
  - apply put_all_keyed.
    + apply NewSQLiteStore_keyed.
    + repeat constructor; apply sample_round_trips.
    + repeat constructor.
Defined.

Example catalog_has_one_default_agent :
  uids_of (List "Agent" "default" catalog) = Some ["uid-4"%string] ∧
  uids_of (List "Pipeline" "default" catalog) = Some ["uid-2"%string] ∧
  uids_of (List "Agent" "nowhere" catalog) = Some [] ∧
  (length <$> uids_of (List "Agent" EmptyString catalog)) = Some 2%nat.
Proof. by split_and!. Qed.

(** X4 on the watched store: the Agent watcher and writes of the pipeline. *)
Lemma agent_watcher_ignores_pipeline :
  chan_of "Agent" 0 (Put 9 "uid-9" watched pipeline).1.1 =
    chan_of "Agent" 0 watched ∧
  chan_of "Agent" 0 (Delete "Pipeline" "default" "nightly" watched).1 =
    chan_of "Agent" 0 watched.
Proof.
  apply (other_kinds_hear_nothing 9 "uid-9" watched pipeline).
  - discriminate.
  - discriminate.
Defined.

(** X5: the agent is put on a closed store, then put again, as the failed
    call left it, on the watched store. *)
Lemma retried_agent_is_updated :
  Close NewSQLiteStore = Close NewSQLiteStore ∧
  UID (Metadata created_agent) = "uid-1"%string ∧
  UID (Metadata (Put 7 "uid-2" watched created_agent).1.2) = "uid-1"%string ∧
  ∃ ev, chan_of (Kind (agent EmptyString unset)) 0
          (Put 7 "uid-2" watched created_agent).1.1 =
          Some {| cap := 100; buf := [ev] |} ∧
        Type_ ev = EventUpdated.
Proof.
  apply (retry_after_failed_put 5 "uid-1" (Close NewSQLiteStore)
           (agent EmptyString unset) (Close NewSQLiteStore) created_agent
           StorageFailure 7 "uid-2" watched
           (Put 7 "uid-2" watched created_agent).1.1
           (Put 7 "uid-2" watched created_agent).1.2 0%nat (make_chan 100)).
  - reflexivity.
  - discriminate.
  - reflexivity.
  - reflexivity.
  - reflexivity.
  - simpl. lia.
Defined.

(** X6 on the store that holds the agent: its status is set to Ready, and
    that of a name without row. *)
Lemma agent_status_updated :
  (∃ s' got,
     UpdateStatus 8 9 "uid-9" "Agent" "default" "summarizer" ready created =
       (s', None) ∧
     Get "Agent" "default" "summarizer" s' = Ok got ∧
     Kind got = Kind created_agent ∧
     Spec got = Spec created_agent ∧
     Metadata got = set_UpdatedAt 9 (Metadata created_agent) ∧
     LastUpdated (Status got) = 9 ∧
     (State ready ≠ EmptyString →
        State (Status got) = State ready ∧
        Health (Status got) = Health ready) ∧
     (State ready = EmptyString →
        State (Status got) = "Registered"%string ∧
        Health (Status got) = "Unknown"%string)) ∧
  UpdateStatus 8 9 "uid-9" "Agent" "default" "nobody" ready created =
    (created, Some NotFound).
Proof.
  apply (update_status_then_get 8 9 "uid-9" "Agent" "default" "summarizer"
           "nobody" ready created created_agent).
  - reflexivity.
  - reflexivity.
  - discriminate.
  - by eexists.
  - apply sample_round_trips.
  - reflexivity.
  - reflexivity.
Defined.

(** X7 on the watched store: the first Agent watcher after calls that
    include a receive, a delete and a close. *)
Lemma first_watcher_still_there :
  is_Some (chan_of "Agent" 0 (calls busy_calls watched)).
Proof.
  apply (watcher_stays_registered busy_calls watched "Agent" 0).
  by eexists.
Defined.

(** X8 on the new store: the queue of a watcher after 101 writes. *)
Lemma flooded_queue_bounded :
  cap flooded_chan = 100%nat ∧ (length (buf flooded_chan) ≤ 100)%nat.
Proof.
  apply (watcher_queue_bounded flood "Agent" 0 flooded_chan).
  reflexivity.
Defined.

Example flooded_queue_length : length (buf flooded_chan) = 100%nat.
Proof. reflexivity. Qed.

(** X9 on the new store: an execution created without id. *)
Lemma created_execution_read_back :
  GetExecution
    (Exec.ID (CreateExecution 10 "x" NewSQLiteStore
                (execution EmptyString "team")).1.2)
    (CreateExecution 10 "x" NewSQLiteStore (execution EmptyString "team")).1.1 =
    Ok (CreateExecution 10 "x" NewSQLiteStore
          (execution EmptyString "team")).1.2 ∧
  Exec.ID (CreateExecution 10 "x" NewSQLiteStore
             (execution EmptyString "team")).1.2 =
    (if decide (Exec.ID (execution EmptyString "team") = EmptyString)
     then "x"%string else Exec.ID (execution EmptyString "team")) ∧
  Exec.CreatedAt (CreateExecution 10 "x" NewSQLiteStore
                    (execution EmptyString "team")).1.2 = 10 ∧
  Exec.UpdatedAt (CreateExecution 10 "x" NewSQLiteStore
                    (execution EmptyString "team")).1.2 = 10 ∧
  ∀ id, id ≠ Exec.ID (CreateExecution 10 "x" NewSQLiteStore
                        (execution EmptyString "team")).1.2 →
    GetExecution id
      (CreateExecution 10 "x" NewSQLiteStore
         (execution EmptyString "team")).1.1 =
      GetExecution id NewSQLiteStore.
Proof.
  apply (create_then_get 10 "x" NewSQLiteStore (execution EmptyString "team")).
  - reflexivity.
  - intros d [= <-]. reflexivity.
Defined.

(** X10 on the sample ledger: execution [a] is created a second time. *)
Lemma second_creation_refused :
  (CreateExecution 40 "x" ledger (execution "a" "other")).1.1 = ledger ∧
  (CreateExecution 40 "x" ledger (execution "a" "other")).2 ≠ None.
Proof.
  apply (create_existing_id_fails 40 "x" ledger (execution "a" "other")).
  by eexists.
Defined.

(** X11 on the sample ledger: execution [a] is updated with a record that
    names another namespace and carries a checkpoint. *)
Lemma moved_execution_keeps_columns :
  GetExecution (Exec.ID moved) (UpdateExecution 40 ledger moved).1.1 =
    Ok (UpdateExecution 40 ledger moved).1.2 ∧
  (UpdateExecution 40 ledger moved).1.2 = Exec.set_UpdatedAt 40 moved ∧
  LoadCheckpoint (Exec.ID moved) (UpdateExecution 40 ledger moved).1.1 =
    LoadCheckpoint (Exec.ID moved) ledger ∧
  ∃ row', executions (UpdateExecution 40 ledger moved).1.1 !! Exec.ID moved =
            Some row' ∧
          e_state row' = Exec.State moved ∧
          e_updated_at row' = 40 ∧
          e_namespace row' = e_namespace row_a ∧
          e_agent_name row' = e_agent_name row_a ∧
          e_pipeline_name row' = e_pipeline_name row_a ∧
          e_created_at row' = e_created_at row_a ∧
          e_checkpoint row' = e_checkpoint row_a.
Proof.
  apply (update_existing_execution 40 ledger moved).
  - reflexivity.
  - reflexivity.
  - intros d [= <-]. reflexivity.
Defined.

(** The updated record names namespace [elsewhere], yet the execution is
    still listed under [team] and not under [elsewhere]. *)
Example moved_execution_listed_where_created :
  ids_of (ListExecutions "team" 0 (UpdateExecution 40 ledger moved).1.1) =
    Some ["b"; "a"]%string ∧
  ids_of (ListExecutions "elsewhere" 0 (UpdateExecution 40 ledger moved).1.1) =
    Some [].
Proof. by split. Qed.

(** X13 on the sample ledger: a checkpoint saved for an id without row. *)
Lemma checkpoint_of_unknown_execution_lost :
  SaveCheckpoint 40 "nobody" (Some [x01; x02]) ledger = (ledger, None) ∧
  LoadCheckpoint "nobody"
    (SaveCheckpoint 40 "nobody" (Some [x01; x02]) ledger).1 = (None, None).
Proof.
  apply (save_checkpoint_missing_row 40 "nobody" (Some [x01; x02]) ledger).
  - reflexivity.
  - reflexivity.
Defined.


Example appended_log_order :
  GetExecutionLogs "a" (AppendExecutionLog "a" (log_at 20 "second") logged).1 =
    Ok [log_at 10 "first"; log_at 20 "second"; log_at 30 "third"].
Proof. reflexivity. Qed.

(** X15 on the closed sample ledger. *)
Lemma closed_ledger_frozen :
  db_open (calls other_calls (Close ledger)) = false ∧
  same_tables (calls other_calls (Close ledger)) (Close ledger) ∧
  Get "Agent" "default" "summarizer" (calls other_calls (Close ledger)) =
    Err StorageFailure ∧
  List "Agent" "default" (calls other_calls (Close ledger)) =
    Err StorageFailure ∧
  GetExecution "a" (calls other_calls (Close ledger)) = Err StorageFailure ∧
  ListExecutions "default" 0 (calls other_calls (Close ledger)) =
    Err StorageFailure ∧
  GetExecutionLogs "a" (calls other_calls (Close ledger)) =
    Err StorageFailure ∧
  LoadCheckpoint "a" (calls other_calls (Close ledger)) =
    (None, Some StorageFailure).
Proof.
  apply (closed_store_frozen other_calls (Close ledger) "Agent" "default"
           "summarizer" "a").
  reflexivity.
Defined.
